(** * RubriX_AI: response cache and CFG record validation

    A shallow embedding of [backend/cache.py], of the record handling in
    [backend/analyzers/cfg_generator.py] and of the two analyzers that read
    and write the cache ([backend/analyzers/cfg_comparator.py] and
    [backend/analyzers/problem_analyzer.py]), with the properties of the
    specification stated over it, followed by further properties of the
    code.

    Conventions of the embedding.
    - A parsed JSON document (what [json.loads] returns) is a value of
      [json]; a Python [dict] with string keys is a [gmap string json], so
      that equality of two objects ignores insertion order exactly as
      Python's [==] on dicts does.  JSON numbers are integers: no operation
      modelled here does arithmetic on them and the graph metrics are
      integers.
    - A Python exception is a value of [exn]; a function that may raise
      returns a [result].  Values are passed by value: a decoded document
      shares no object between two of its places, so the in-place updates of
      [validate_cfg] are updates of the place they are made at.
    - The SQLite table [ai_cache] is a list of rows; the clock
      ([datetime.now()]) is an explicit argument, one per call in the source.
    - Python text is a [string] whose characters are the code points below
      256; whitespace ([\s], [str.strip]) and [str.lower] are Python's on
      that range. *)

From Stdlib Require Import ZArith Ascii String List Bool Lia.
From stdpp Require Import base option list gmap strings fin_maps pretty.

Set Warnings "-register-all,-clear-no-such-hyp".
Local Open Scope string_scope.

(** ** Exceptions and results *)

Inductive exn : Type :=
| TypeError
| AttributeError
| KeyError
| JSONDecodeError
| ImageError
| CollaboratorError.

Inductive result (A : Type) : Type :=
| Ok (a : A)
| Raise (e : exn).
Arguments Ok {A} a.
Arguments Raise {A} e.

#[global] Instance result_ret : MRet result := fun _ a => Ok a.
#[global] Instance result_bind : MBind result := fun _ _ f m =>
  match m with
  | Ok a => f a
  | Raise e => Raise e
  end.

Definition is_ok {A} (r : result A) : bool :=
  match r with Ok _ => true | Raise _ => false end.

(** ** JSON values *)

Inductive json : Type :=
| JNull
| JBool (b : bool)
| JInt (z : Z)
| JStr (s : string)
| JArr (l : list json)
| JObj (m : gmap string json).

(** Python truthiness, as used by [if e.get("from") and e.get("to")]. *)
Definition truthy (v : json) : bool :=
  match v with
  | JNull => false
  | JBool b => b
  | JInt z => negb (Z.eqb z 0)
  | JStr s => negb (String.eqb s "")
  | JArr l => match l with [] => false | _ => true end
  | JObj m => match map_to_list m with [] => false | _ => true end
  end.

Definition is_str (k : string) (v : json) : bool :=
  match v with JStr s => String.eqb s k | _ => false end.

Definition is_substring (k s : string) : bool :=
  match String.index 0 k s with Some _ => true | None => false end.

(** [k in v]: key membership on a dict, element membership on a list,
    substring test on a str, [TypeError] on anything else. *)
Definition py_in (k : string) (v : json) : result bool :=
  match v with
  | JObj m => Ok (bool_decide (is_Some (m !! k)))
  | JArr l => Ok (existsb (is_str k) l)
  | JStr s => Ok (is_substring k s)
  | _ => Raise TypeError
  end.

(** [v[k] = d] with a string key [k]. *)
Definition py_setitem (k : string) (d : json) (v : json) : result json :=
  match v with
  | JObj m => Ok (JObj (<[k := d]> m))
  | _ => Raise TypeError
  end.

(** [v[k]] with a string key [k]. *)
Definition py_getitem (k : string) (v : json) : result json :=
  match v with
  | JObj m => match m !! k with Some x => Ok x | None => Raise KeyError end
  | _ => Raise TypeError
  end.

(** [v.get(k)]. *)
Definition py_get (k : string) (v : json) : result json :=
  match v with
  | JObj m => Ok (default JNull (m !! k))
  | _ => Raise AttributeError
  end.

Fixpoint chars (s : string) : list json :=
  match s with
  | EmptyString => []
  | String c r => JStr (String c EmptyString) :: chars r
  end.

(** [for x in v]: the elements of a list, the characters of a str, the keys
    of a dict.  The keys come in the order of the map, not in the order of
    insertion: what is done with them below, on a value that is not a list,
    does not depend on their order. *)
Definition py_iter (v : json) : result (list json) :=
  match v with
  | JArr l => Ok l
  | JStr s => Ok (chars s)
  | JObj m => Ok (JStr <$> (map_to_list m).*1)
  | _ => Raise TypeError
  end.

(** [if k not in v: v[k] = d]. *)
Definition ensure (k : string) (d : json) (v : json) : result json :=
  b ← py_in k v;
  if b : bool then Ok v else py_setitem k d v.

(** [str(n)] for a natural number. *)
Definition str_of_nat (n : nat) : string := pretty n.

(** ** [validate_cfg] *)

(** Body of the loop over [enumerate(cfg_data["nodes"])] at index [i]. *)
Definition fix_node (i : nat) (node : json) : result json :=
  n ← ensure "id" (JStr ("node" ++ str_of_nat (i + 1))) node;
  n ← ensure "type" (JStr "PROCESS") n;
  n ← ensure "label" (JStr ("Node " ++ str_of_nat (i + 1))) n;
  n ← ensure "next_nodes" (JArr []) n;
  ensure "condition" JNull n.

Fixpoint fix_nodes_from (i : nat) (l : list json) : result (list json) :=
  match l with
  | [] => Ok []
  | node :: rest =>
      n ← fix_node i node;
      ns ← fix_nodes_from (S i) rest;
      Ok (n :: ns)
  end.

(** The node loop.  The dicts of a list are updated in place, so the list
    holds the completed nodes afterwards; a str or a dict in the place of the
    list yields strs, which the loop can only leave alone or fail on. *)
Definition fix_nodes (nodes : json) : result json :=
  l ← py_iter nodes;
  l' ← fix_nodes_from 0 l;
  match nodes with
  | JArr _ => Ok (JArr l')
  | _ => Ok nodes
  end.

(** Body of the first loop over [cfg_data["edges"]]. *)
Definition fix_edge (edge : json) : result json :=
  e ← ensure "from" (JStr "") edge;
  e ← ensure "to" (JStr "") e;
  ensure "label" (JStr "") e.

Fixpoint fix_edges (l : list json) : result (list json) :=
  match l with
  | [] => Ok []
  | edge :: rest =>
      e ← fix_edge edge;
      es ← fix_edges rest;
      Ok (e :: es)
  end.

(** [e.get("from") and e.get("to")], as a condition. *)
Definition edge_kept (e : json) : result bool :=
  f ← py_get "from" e;
  if truthy f then t ← py_get "to" e; Ok (truthy t) else Ok false.

(** [[e for e in edges if e.get("from") and e.get("to")]]. *)
Fixpoint keep_edges (l : list json) : result (list json) :=
  match l with
  | [] => Ok []
  | e :: rest =>
      b ← edge_kept e;
      es ← keep_edges rest;
      Ok (if b : bool then e :: es else es)
  end.

Definition validate_cfg (cfg_data : json) : result json :=
  d ← ensure "nodes" (JArr []) cfg_data;
  d ← ensure "edges" (JArr []) d;
  d ← ensure "complexity" (JInt 1) d;
  d ← ensure "num_paths" (JInt 1) d;
  d ← ensure "nesting_depth" (JInt 0) d;
  nodes ← py_getitem "nodes" d;
  nodes' ← fix_nodes nodes;
  d ← py_setitem "nodes" nodes' d;
  edges ← py_getitem "edges" d;
  l ← py_iter edges;
  l' ← fix_edges l;
  kept ← keep_edges l';
  py_setitem "edges" (JArr kept) d.

(** ** [normalize_code] *)

Module Normalizer.

Local Open Scope char_scope.
Local Open Scope list_scope.

Abbreviation text := (list ascii).

Definition is_nl (c : ascii) : bool := Ascii.eqb c "010".

(** The characters matched by [\s] and removed by [str.strip()]. *)
Definition is_space (c : ascii) : bool :=
  let n := nat_of_ascii c in
  (Nat.leb 9 n && Nat.leb n 13) || (Nat.leb 28 n && Nat.leb n 32)
  || Nat.eqb n 133 || Nat.eqb n 160.

(** [str.lower()] on one character. *)
Definition lower_char (c : ascii) : ascii :=
  let n := nat_of_ascii c in
  if (Nat.leb 65 n && Nat.leb n 90)
     || (Nat.leb 192 n && Nat.leb n 222 && negb (Nat.eqb n 215))
  then ascii_of_nat (n + 32) else c.

Fixpoint starts_with (m s : text) : bool :=
  match m, s with
  | [], _ => true
  | a :: m', b :: s' => Ascii.eqb a b && starts_with m' s'
  | _ :: _, [] => false
  end.

(** [re.sub(marker + r'.*$', '', s, flags=re.MULTILINE)]: on every line,
    everything from the first occurrence of [marker] up to, and not
    including, the newline is deleted.  [skip] tells that a marker was seen
    on the current line. *)
Fixpoint strip_line_comments (marker : text) (skip : bool) (s : text) : text :=
  match s with
  | [] => []
  | c :: r =>
      if is_nl c then c :: strip_line_comments marker false r
      else if skip then strip_line_comments marker true r
      else if starts_with marker s then strip_line_comments marker true r
      else c :: strip_line_comments marker false r
  end.

(** Does [s] contain the two characters that end a block comment? *)
Fixpoint has_close (s : text) : bool :=
  match s with
  | [] => false
  | c :: r => starts_with ["*"; "/"] s || has_close r
  end.

(** [re.sub(r'/\*.*?\*/', '', s, flags=re.DOTALL)]: scanning from the left,
    a slash-star that is followed, after its two characters, by a star-slash
    is deleted together with everything up to and including the first such
    star-slash; one that is never closed stays.  [inside] tells that the
    scan is within a comment being deleted. *)
Fixpoint strip_block_comments (inside : bool) (s : text) : text :=
  match s with
  | [] => []
  | c :: r =>
      if inside then
        match r with
        | d :: r' =>
            if Ascii.eqb c "*" && Ascii.eqb d "/"
            then strip_block_comments false r'
            else strip_block_comments true r
        | [] => []
        end
      else
        match r with
        | d :: r' =>
            if Ascii.eqb c "/" && Ascii.eqb d "*" && has_close r'
            then strip_block_comments true r'
            else c :: strip_block_comments false r
        | [] => [c]
        end
  end.

(** [s.replace(';', '')]. *)
Definition remove_semicolons (s : text) : text :=
  List.filter (fun c => negb (Ascii.eqb c ";")) s.

(** [re.sub(r'\s+', ' ', s)]; [in_run] tells that the previous character
    was whitespace, already replaced. *)
Fixpoint collapse_ws (in_run : bool) (s : text) : text :=
  match s with
  | [] => []
  | c :: r =>
      if is_space c
      then (if in_run then collapse_ws true r else " " :: collapse_ws true r)
      else c :: collapse_ws false r
  end.

Fixpoint lstrip (s : text) : text :=
  match s with
  | [] => []
  | c :: r => if is_space c then lstrip r else s
  end.

(** [s.strip()]. *)
Definition strip (s : text) : text := rev (lstrip (rev (lstrip s))).

(** [s.lower()]. *)
Definition lower (s : text) : text := List.map lower_char s.

Definition normalize (code : text) : text :=
  let t := strip_line_comments ["/"; "/"] false code in
  let t := strip_line_comments ["#"] false t in
  let t := strip_block_comments false t in
  let t := remove_semicolons t in
  let t := collapse_ws false t in
  let t := strip t in
  lower t.

(** *** Texts that differ only trivially *)

(** No character of [c] is a newline. *)
Definition one_line (c : text) : bool := forallb (fun x => negb (is_nl x)) c.

(** [s] is empty or begins with a newline. *)
Definition at_line_end (s : text) : bool :=
  match s with [] => true | c :: _ => is_nl c end.

(** [s] is empty or begins with whitespace. *)
Definition at_break (s : text) : bool :=
  match s with [] => true | c :: _ => is_space c end.

Definition whitespace (w : text) : bool := forallb is_space w.

Definition has_newline (w : text) : bool := existsb is_nl w.

Definition begins_with_slash (s : text) : bool :=
  match s with c :: _ => Ascii.eqb c "/" | [] => false end.

Definition ends_with_star (p : text) : bool :=
  match last p with Some c => Ascii.eqb c "*" | None => false end.

(** [t] holds a marker of single-line comments: a hash, or two slashes in
    a row. *)
Fixpoint has_line_marker (t : text) : bool :=
  match t with
  | [] => false
  | c :: r =>
      Ascii.eqb c "#" || (Ascii.eqb c "/" && begins_with_slash r) || has_line_marker r
  end.

(** What follows the last newline of [p]: the line that [p] ends on. *)
Fixpoint last_line (p : text) : text :=
  match p with
  | [] => []
  | c :: r => if has_newline (c :: r) then last_line r else c :: r
  end.

(** The end of [p] lies in a single-line comment: the line that [p] ends on
    holds a marker. *)
Definition in_line_comment (p : text) : bool := has_line_marker (last_line p).

(** Whether the block scanner, begun with [inside], is inside a block
    comment at the end of [p], when a star-slash follows [p]. *)
Fixpoint open_at_end (inside : bool) (p : text) : bool :=
  match p with
  | [] => inside
  | c :: r =>
      match r with
      | [] => inside
      | d :: r' =>
          if inside then
            if Ascii.eqb c "*" && Ascii.eqb d "/" then open_at_end false r'
            else open_at_end true r
          else
            if Ascii.eqb c "/" && Ascii.eqb d "*" then open_at_end true r'
            else open_at_end false r
      end
  end.

(** The end of [p] lies in a block comment that is still open there, once
    the single-line comments of [p] are cut. *)
Definition in_block_comment (p : text) : bool :=
  open_at_end false
    (strip_line_comments ["#"] false (strip_line_comments ["/"; "/"] false p)).

(** One trivial difference between two texts, following the kinds of the
    specification:
    - the text of a single-line comment, from its marker to the end of the
      line;
    - the text of a block comment, between its delimiters;
    - a semicolon that ends a statement, that is, one followed by
      whitespace or by the end of the text;
    - a run of whitespace, replaced by another run;
    - whitespace at the beginning or at the end of the text;
    - the case of letters.
    With [guarded = true] two of the kinds are narrowed.  A block comment
    that begins in a single-line comment does not break the line (its text
    is text of that comment).  The two texts of one that begins outside hold
    no marker of single-line comments, and the comment is not followed by a
    slash; if it begins in a block comment that is still open (its
    slash-star is text of that comment), it does not follow a star and its
    two texts do not begin with a slash.  And two whitespace runs of which
    only one breaks the line do not lie in a single-line comment. *)
Inductive trivial_edit (guarded : bool) : text -> text -> Prop :=
| edit_line_comment (p m c1 c2 s : text) :
    m = ["/"; "/"] ∨ m = ["#"] ->
    one_line c1 = true -> one_line c2 = true -> at_line_end s = true ->
    trivial_edit guarded (p ++ m ++ c1 ++ s) (p ++ m ++ c2 ++ s)
| edit_block_comment (p c1 c2 s : text) :
    has_close c1 = false -> has_close c2 = false ->
    (guarded = true ->
     (in_line_comment (p ++ ["/"; "*"]) = true
      ∧ one_line c1 = true ∧ one_line c2 = true)
     ∨ (in_line_comment (p ++ ["/"; "*"]) = false
        ∧ has_line_marker c1 = false ∧ has_line_marker c2 = false
        ∧ begins_with_slash s = false
        ∧ (in_block_comment p = false
           ∨ (begins_with_slash c1 = false ∧ begins_with_slash c2 = false
              ∧ ends_with_star p = false)))) ->
    trivial_edit guarded (p ++ ["/"; "*"] ++ c1 ++ ["*"; "/"] ++ s)
                         (p ++ ["/"; "*"] ++ c2 ++ ["*"; "/"] ++ s)
| edit_semicolon (p s : text) :
    at_break s = true ->
    trivial_edit guarded (p ++ ";" :: s) (p ++ s)
| edit_whitespace (p w1 w2 s : text) :
    w1 <> [] -> w2 <> [] -> whitespace w1 = true -> whitespace w2 = true ->
    (guarded = true -> has_newline w1 = has_newline w2 ∨ in_line_comment p = false) ->
    trivial_edit guarded (p ++ w1 ++ s) (p ++ w2 ++ s)
| edit_leading_whitespace (w s : text) :
    whitespace w = true ->
    trivial_edit guarded (w ++ s) s
| edit_trailing_whitespace (p w : text) :
    whitespace w = true ->
    trivial_edit guarded (p ++ w) p
| edit_case (a b : text) :
    lower a = lower b ->
    trivial_edit guarded a b.



(** *** Auxiliary notions for the proofs about [normalize] *)













End Normalizer.

Definition normalize_code (code : string) : string :=
  string_of_list_ascii (Normalizer.normalize (list_ascii_of_string code)).

(** ** The graph entity and its assembler *)

(** The dataclasses [CFGNode] and [CFG].  A dataclass does not check the
    annotated types, so every field holds whatever value it is given. *)
Record CFGNode : Type := mkCFGNode {
  id : json;
  type : json;
  label : json;
  next_nodes : json;
  condition : json
}.

Record CFG : Type := mkCFG {
  nodes : list CFGNode;
  edges : json;
  complexity : json;
  num_paths : json;
  nesting_depth : json
}.

Definition node_fields : gset string :=
  {[ "id"; "type"; "label"; "next_nodes"; "condition" ]}.

(** The constructor [CFGNode] applied to [node] unpacked into keyword
    arguments: [node] must be a mapping, every key must be a field of the
    dataclass and every field without a default must be given; [condition]
    defaults to [None]. *)
Definition make_node (node : json) : result CFGNode :=
  match node with
  | JObj m =>
      if bool_decide (dom m ⊆ node_fields) then
        match m !! "id", m !! "type", m !! "label", m !! "next_nodes" with
        | Some i, Some t, Some l, Some n =>
            Ok (mkCFGNode i t l n (default JNull (m !! "condition")))
        | _, _, _, _ => Raise TypeError
        end
      else Raise TypeError
  | _ => Raise TypeError
  end.

Fixpoint make_nodes (l : list json) : result (list CFGNode) :=
  match l with
  | [] => Ok []
  | node :: rest =>
      n ← make_node node;
      ns ← make_nodes rest;
      Ok (n :: ns)
  end.

(** The construction shared by the cache-hit and the fresh-response paths:
    one [CFGNode] per element of [r["nodes"]], followed by
    [CFG(nodes=nodes, edges=r["edges"], complexity=r["complexity"], ...)]. *)
Definition to_entity (r : json) : result CFG :=
  ns ← py_getitem "nodes" r;
  l ← py_iter ns;
  nodes ← make_nodes l;
  es ← py_getitem "edges" r;
  c ← py_getitem "complexity" r;
  p ← py_getitem "num_paths" r;
  d ← py_getitem "nesting_depth" r;
  Ok (mkCFG nodes es c p d).

(** [dataclasses.asdict(node)]; the copies it makes are equal values. *)
Definition asdict (n : CFGNode) : json :=
  JObj {[ "id" := id n; "type" := type n; "label" := label n;
          "next_nodes" := next_nodes n; "condition" := condition n ]}.

Definition cfg_to_dict (cfg : CFG) : json :=
  JObj {[ "nodes" := JArr (asdict <$> nodes cfg);
          "edges" := edges cfg;
          "complexity" := complexity cfg;
          "num_paths" := num_paths cfg;
          "nesting_depth" := nesting_depth cfg ]}.

(** The graph returned when the response cannot be decoded; [marker] is the
    label of the middle node. *)
Definition fallback_cfg (marker : string) : CFG :=
  mkCFG
    [ mkCFGNode (JStr "node1") (JStr "START") (JStr "Start")
                (JArr [JStr "node2"]) JNull;
      mkCFGNode (JStr "node2") (JStr "PROCESS") (JStr marker)
                (JArr [JStr "node3"]) JNull;
      mkCFGNode (JStr "node3") (JStr "END") (JStr "End") (JArr []) JNull ]
    (JArr [ JObj {[ "from" := JStr "node1"; "to" := JStr "node2";
                    "label" := JStr "" ]};
            JObj {[ "from" := JStr "node2"; "to" := JStr "node3";
                    "label" := JStr "" ]} ])
    (JInt 1) (JInt 1) (JInt 0).

(** ** The cache store *)

(** Modelled from the spec: the declaration of the table [ai_cache] (in
    [database.py]) is not among the sources.  Following the persisted layout
    of the specification, a row has the columns below, [(call_type,
    content_hash)] is a unique key, and [id] is the integer primary key that
    SQLite assigns on insertion, larger than every id in the table.  The
    column [response] holds [json.dumps] of the record and is read back with
    [json.loads]; the row keeps the record itself.  Timestamps are
    microseconds counted from [datetime.min]: the ISO-8601 texts that the
    source stores and compares are ordered as the instants they denote. *)
Record row : Type := mkRow {
  row_id : nat;
  call_type : string;
  content_hash : string;
  response : json;
  created_at : Z;
  expires_at : Z;
  hit_count : nat
}.

Abbreviation table := (list row).

Definition has_key (ct h : string) (r : row) : bool :=
  String.eqb (call_type r) ct && String.eqb (content_hash r) h.

(** [expires_at > now]. *)
Definition live (now : Z) (r : row) : bool := Z.ltb now (expires_at r).

(** [expires_at <= now]. *)
Definition expired (now : Z) (r : row) : bool := Z.leb (expires_at r) now.

Definition fresh_id (t : table) : nat := S (list_max (row_id <$> t)).

Definition bump (i : nat) (r : row) : row :=
  if Nat.eqb (row_id r) i
  then mkRow (row_id r) (call_type r) (content_hash r) (response r)
             (created_at r) (expires_at r) (hit_count r + 1)
  else r.

(** [str.join]. *)
Fixpoint join (sep : string) (parts : list string) : string :=
  match parts with
  | [] => ""
  | [p] => p
  | p :: rest => p ++ sep ++ join sep rest
  end.

Definition sum_hits (t : table) : nat := list_sum (hit_count <$> t).

(** One element of [by_call_type]. *)
Record type_stats : Type := mkTypeStats {
  ts_call_type : string;
  ts_entries : nat;
  ts_hits : nat
}.

(** The value returned by [get_cache_stats]. *)
Record cache_stats : Type := mkStats {
  total_entries : nat;
  active_entries : nat;
  expired_entries : Z;
  total_cache_hits : nat;
  ttl_hours : Z;
  by_call_type : list type_stats
}.

(** The distinct call types of a table, in order of first appearance. *)
Fixpoint call_types (t : table) : list string :=
  match t with
  | [] => []
  | r :: rest =>
      call_type r ::
      List.filter (fun ct => negb (String.eqb ct (call_type r))) (call_types rest)
  end.

Definition group_stats (t : table) (ct : string) : type_stats :=
  let g := List.filter (fun r => String.eqb (call_type r) ct) t in
  mkTypeStats ct (length g) (sum_hits g).

(** [ORDER BY hits DESC], as a stable insertion sort (SQL leaves the order of
    ties open). *)
Fixpoint insert_by_hits (x : type_stats) (l : list type_stats) : list type_stats :=
  match l with
  | [] => [x]
  | y :: rest =>
      if Nat.ltb (ts_hits x) (ts_hits y) then y :: insert_by_hits x rest
      else x :: l
  end.

Definition order_by_hits (l : list type_stats) : list type_stats :=
  foldr insert_by_hits [] l.

(** The instants that a [datetime] holds, as microseconds counted from
    [datetime.min], 0001-01-01T00:00:00: the last one is [datetime.max],
    9999-12-31T23:59:59.999999.  Every reading of the clock is such an
    instant. *)
Definition datetime_max : Z := 315537897599999999.

Definition representable (instant : Z) : bool :=
  Z.leb 0 instant && Z.leb instant datetime_max.

Section Cache.

(** [hashlib.sha256(b).hexdigest()] on the UTF-8 encoding of a text. *)
Variable sha256_hex : string -> string.

(** The configuration value [CACHE_TTL_HOURS]. *)
Variable CACHE_TTL_HOURS : Z.

Definition generate_cache_key (ct : string) (content_parts : list string) : string :=
  let combined := ct ++ "||" ++ join "||" content_parts in
  sha256_hex combined.

(** [SELECT id, response ... WHERE call_type = ? AND content_hash = ? AND
    expires_at > now], [fetchone()], and on a row the [UPDATE ... SET
    hit_count = hit_count + 1 WHERE id = ?]. *)
Definition get_cached_response (now : Z) (ct h : string) (t : table)
  : option json * table :=
  match List.find (fun r => has_key ct h r && live now r) t with
  | Some r => (Some (response r), bump (row_id r) <$> t)
  | None => (None, t)
  end.

(** The body of the [try]: [datetime.now() + timedelta(hours=CACHE_TTL_HOURS)]
    raises [OverflowError] when the sum is no instant that a [datetime]
    holds (from a reading of the clock, the [timedelta] itself can be built
    whenever the sum can); the handler prints the error and nothing is
    written.  Otherwise [INSERT OR REPLACE]: the rows in conflict on the
    unique key are deleted and the new row is inserted.  [now_expiry] and
    [now_created] are the two readings of the clock, in the order of the
    source. *)
Definition set_cached_response (now_expiry now_created : Z) (ct h : string)
    (resp : json) (t : table) : table :=
  let expires := (now_expiry + CACHE_TTL_HOURS * 3600000000)%Z in
  if representable expires
  then List.filter (fun r => negb (has_key ct h r)) t
         ++ [mkRow (fresh_id t) ct h resp now_created expires 0]
  else t.

(** [now_active] and [now_by_type] are the readings of the clock taken
    for the second and the fourth query. *)
Definition get_cache_stats (now_active now_by_type : Z) (t : table) : cache_stats :=
  let total := length t in
  let active := length (List.filter (live now_active) t) in
  let total_hits := sum_hits t in
  let alive := List.filter (live now_by_type) t in
  let by_type := order_by_hits (group_stats alive <$> call_types alive) in
  mkStats total active (Z.of_nat total - Z.of_nat active) total_hits
          CACHE_TTL_HOURS by_type.

(** [DELETE FROM ai_cache WHERE expires_at <= now] and its [rowcount]. *)
Definition cleanup_expired_cache (now : Z) (t : table) : nat * table :=
  (length (List.filter (expired now) t),
   List.filter (fun r => negb (expired now r)) t).

End Cache.

(** ** The two graph producers *)

Definition nl : string := String "010"%char "".

(** [s.split(",")[1]]: the text between the first and the second comma. *)
Fixpoint until_comma (s : string) : string :=
  match s with
  | EmptyString => ""
  | String c r => if Ascii.eqb c ","%char then "" else String c (until_comma r)
  end.

Fixpoint after_comma (s : string) : option string :=
  match s with
  | EmptyString => None
  | String c r => if Ascii.eqb c ","%char then Some r else after_comma r
  end.

(** [base64_image.split(",")[1] if "," in base64_image else base64_image]. *)
Definition image_data (base64_image : string) : string :=
  match after_comma base64_image with
  | Some r => until_comma r
  | None => base64_image
  end.

(** [cached is None], on what [get_cached_response] returned: Python's
    [None] is what a lookup returns when it finds no row, and is also the
    document null read back from a row. *)
Definition is_none (cached : option json) : bool :=
  match cached with
  | None | Some JNull => true
  | Some _ => false
  end.

Section Producers.

Variable sha256_hex : string -> string.
Variable CACHE_TTL_HOURS : Z.

(** [utils.parse_json_response], which is not among the sources: it
    returns the decoded document or raises. *)
Variable parse_json_response : string -> result json.

(** The collaborator: [model.generate_content(prompt).text], or [None]
    when the call fails. *)
Variable generate_content : string -> option string.

(** The decoded picture, [Image.open(BytesIO(base64.b64decode(data)))], or
    [None] when the data is no picture; and the collaborator called with a
    prompt and a picture. *)
Variable image : Type.
Variable open_image : string -> option image.
Variable generate_content_vision : string -> image -> option string.

Variable PSEUDOCODE_TO_CFG_PROMPT : string.
Variable FLOWCHART_TO_CFG_PROMPT : string.

(** What follows [result = utils.parse_json_response(response.text)] in
    both producers, inside their [try]: a decoding error gives the fallback
    graph, any other exception is raised again, and a graph that could be
    built is stored under [key] before it is returned. *)
Definition from_response (now_expiry now_created : Z) (ct key marker : string)
    (text : string) (t : table) : result CFG * table :=
  match parse_json_response text with
  | Raise JSONDecodeError => (Ok (fallback_cfg marker), t)
  | Raise e => (Raise e, t)
  | Ok raw =>
      match validate_cfg raw with
      | Raise e => (Raise e, t)
      | Ok rec =>
          match to_entity rec with
          | Raise e => (Raise e, t)
          | Ok cfg =>
              (Ok cfg,
               set_cached_response CACHE_TTL_HOURS now_expiry now_created
                                   ct key rec t)
          end
      end
  end.

(** The cache-hit branch of both producers. *)
Definition from_cache (cached : json) : result CFG :=
  rec ← validate_cfg cached;
  to_entity rec.

Definition pseudocode_to_cfg (now_get now_expiry now_created : Z)
    (pseudocode : string) (t : table) : result CFG * table :=
  let cache_key :=
    generate_cache_key sha256_hex "pseudocode_to_cfg" [normalize_code pseudocode] in
  match get_cached_response now_get "pseudocode_to_cfg" cache_key t with
  | (cached, t) =>
      if is_none cached then
        let prompt :=
          PSEUDOCODE_TO_CFG_PROMPT ++ nl ++ nl ++ "Pseudocode:" ++ nl ++ pseudocode in
        match generate_content prompt with
        | None => (Raise CollaboratorError, t)
        | Some text =>
            from_response now_expiry now_created "pseudocode_to_cfg" cache_key
                          "Error parsing pseudocode" text t
        end
      else (from_cache (default JNull cached), t)
  end.

Definition flowchart_to_cfg (now_get now_expiry now_created : Z)
    (base64_image : string) (t : table) : result CFG * table :=
  let cache_key := generate_cache_key sha256_hex "flowchart_to_cfg" [base64_image] in
  match get_cached_response now_get "flowchart_to_cfg" cache_key t with
  | (cached, t) =>
      if is_none cached then
        match open_image (image_data base64_image) with
        | None => (Raise ImageError, t)
        | Some img =>
            match generate_content_vision FLOWCHART_TO_CFG_PROMPT img with
            | None => (Raise CollaboratorError, t)
            | Some text =>
                from_response now_expiry now_created "flowchart_to_cfg" cache_key
                              "Error parsing flowchart" text t
            end
        end
      else (from_cache (default JNull cached), t)
  end.

End Producers.

(** ** The data model of the specification, as predicates on JSON values *)

Definition is_string (v : json) : bool :=
  match v with JStr _ => true | _ => false end.

Definition is_nonempty_string (v : json) : bool :=
  match v with JStr s => negb (String.eqb s "") | _ => false end.

Definition is_int (v : json) : bool :=
  match v with JInt _ => true | _ => false end.

Definition is_string_list (v : json) : bool :=
  match v with JArr l => forallb is_string l | _ => false end.

Definition is_optional_string (v : json) : bool :=
  match v with JStr _ | JNull => true | _ => false end.

Definition node_types : list string :=
  [ "START"; "END"; "PROCESS"; "DECISION"; "LOOP"; "FUNCTION_CALL"; "RETURN" ].

Definition is_node_type (v : json) : bool :=
  match v with JStr s => bool_decide (s ∈ node_types) | _ => false end.

Definition edge_fields : gset string := {[ "from"; "to"; "label" ]}.

Definition record_fields : gset string :=
  {[ "nodes"; "edges"; "complexity"; "num_paths"; "nesting_depth" ]}.

(** Field [k] of [m] may be absent; when present it satisfies [P]. *)
Definition optional (P : json -> bool) (m : gmap string json) (k : string) : bool :=
  match m !! k with Some v => P v | None => true end.

(** Field [k] of [m] is present and satisfies [P]. *)
Definition required (P : json -> bool) (m : gmap string json) (k : string) : bool :=
  match m !! k with Some v => P v | None => false end.

Definition is_list_of (P : json -> bool) (v : json) : bool :=
  match v with JArr l => forallb P l | _ => false end.

(** A NodeRecord before validation: any field may be missing. *)
Definition partial_node (v : json) : bool :=
  match v with
  | JObj m =>
      bool_decide (dom m ⊆ node_fields)
      && optional is_string m "id"
      && optional is_node_type m "type"
      && optional is_string m "label"
      && optional is_string_list m "next_nodes"
      && optional is_optional_string m "condition"
  | _ => false
  end.

(** An EdgeRecord before validation. *)
Definition partial_edge (v : json) : bool :=
  match v with
  | JObj m =>
      bool_decide (dom m ⊆ edge_fields)
      && optional is_string m "from"
      && optional is_string m "to"
      && optional is_string m "label"
  | _ => false
  end.

(** A GraphRecord before validation. *)
Definition partial_graph_record (v : json) : bool :=
  match v with
  | JObj m =>
      bool_decide (dom m ⊆ record_fields)
      && optional (is_list_of partial_node) m "nodes"
      && optional (is_list_of partial_edge) m "edges"
      && optional is_int m "complexity"
      && optional is_int m "num_paths"
      && optional is_int m "nesting_depth"
  | _ => false
  end.

(** A NodeRecord after validation: all five fields are present. *)
Definition node_record (v : json) : bool :=
  match v with
  | JObj m =>
      bool_decide (dom m ⊆ node_fields)
      && required is_string m "id"
      && required is_node_type m "type"
      && required is_string m "label"
      && required is_string_list m "next_nodes"
      && required is_optional_string m "condition"
  | _ => false
  end.

(** An EdgeRecord after validation: both ends are non-empty. *)
Definition edge_record (v : json) : bool :=
  match v with
  | JObj m =>
      bool_decide (dom m ⊆ edge_fields)
      && required is_nonempty_string m "from"
      && required is_nonempty_string m "to"
      && required is_string m "label"
  | _ => false
  end.

(** A GraphRecord after validation, uniqueness of the node ids apart. *)
Definition graph_record (v : json) : bool :=
  match v with
  | JObj m =>
      bool_decide (dom m ⊆ record_fields)
      && required (is_list_of node_record) m "nodes"
      && required (is_list_of edge_record) m "edges"
      && required is_int m "complexity"
      && required is_int m "num_paths"
      && required is_int m "nesting_depth"
  | _ => false
  end.

Definition record_list (k : string) (r : json) : list json :=
  match r with
  | JObj m => match m !! k with Some (JArr l) => l | _ => [] end
  | _ => []
  end.

Definition str_field (k : string) (v : json) : option string :=
  match v with
  | JObj m => match m !! k with Some (JStr s) => Some s | _ => None end
  | _ => None
  end.

(** The ids of the nodes of a record, in order. *)
Definition node_ids (r : json) : list string :=
  omap (str_field "id") (record_list "nodes" r).

Definition names (ids : list string) (k : string) (e : json) : bool :=
  match str_field k e with
  | Some s => bool_decide (s ∈ ids)
  | None => false
  end.

(** An edge one of whose ends is not the id of a node. *)
Definition is_dangling (ids : list string) (e : json) : bool :=
  negb (names ids "from" e && names ids "to" e).

Definition has_dangling_edge (r : json) : bool :=
  existsb (is_dangling (node_ids r)) (record_list "edges" r).

(** The hit counter stored under a key. *)
Definition hits_of (ct h : string) (t : table) : option nat :=
  hit_count <$> List.find (has_key ct h) t.

(** ** [validate_cfg] on records, in closed form *)

(** The effect of [if k not in m: m[k] = d] on a dict. *)
Definition fill (k : string) (d : json) (m : gmap string json) : gmap string json :=
  match m !! k with
  | Some _ => m
  | None => <[k := d]> m
  end.

Definition is_obj (v : json) : bool :=
  match v with JObj _ => true | _ => false end.

(** What the node loop makes of the node at index [i]. *)
Definition complete_node (i : nat) (v : json) : json :=
  match v with
  | JObj m =>
      JObj (fill "condition" JNull
           (fill "next_nodes" (JArr [])
           (fill "label" (JStr ("Node " ++ str_of_nat (i + 1)))
           (fill "type" (JStr "PROCESS")
           (fill "id" (JStr ("node" ++ str_of_nat (i + 1))) m)))))
  | _ => v
  end.

(** What the first edge loop makes of an edge. *)
Definition complete_edge (v : json) : json :=
  match v with
  | JObj m => JObj (fill "label" (JStr "") (fill "to" (JStr "") (fill "from" (JStr "") m)))
  | _ => v
  end.

Definition field (k : string) (v : json) : json :=
  match v with
  | JObj m => default JNull (m !! k)
  | _ => JNull
  end.

(** The filter of the last statement of [validate_cfg], on a dict. *)
Definition both_ends (e : json) : bool :=
  truthy (field "from" e) && truthy (field "to" e).

(** The five top-level defaults. *)
Definition with_defaults (m : gmap string json) : gmap string json :=
  fill "nesting_depth" (JInt 0)
  (fill "num_paths" (JInt 1)
  (fill "complexity" (JInt 1)
  (fill "edges" (JArr [])
  (fill "nodes" (JArr []) m)))).

(** The record that [validate_cfg] returns for a dict whose nodes and edges
    are lists of dicts. *)
Definition validated (m : gmap string json) : json :=
  let m5 := with_defaults m in
  let ns := record_list "nodes" (JObj m5) in
  let es := record_list "edges" (JObj m5) in
  JObj (<["edges" := JArr (List.filter both_ends (complete_edge <$> es))]>
        (<["nodes" := JArr (imap complete_node ns)]> m5)).

(** The id that the node at index [i] has after validation. *)
Definition id_after (i : nat) (n : json) : string :=
  default ("node" ++ str_of_nat (i + 1)) (str_field "id" n).

(** A validated record with an edge to a node that does not exist. *)
Definition sample_record : json :=
  JObj {[ "nodes" := JArr [ JObj {[ "id" := JStr "n1"; "type" := JStr "START";
                                    "label" := JStr "Start";
                                    "next_nodes" := JArr [JStr "ghost"];
                                    "condition" := JNull ]} ];
          "edges" := JArr [ JObj {[ "from" := JStr "n1"; "to" := JStr "ghost";
                                    "label" := JStr "" ]} ];
          "complexity" := JInt 1; "num_paths" := JInt 1; "nesting_depth" := JInt 0 ]}.

(** ** The callers of the cache: [compare_cfgs] and [analyze_problem] *)

(** [len(v)]. *)
Definition py_len (v : json) : result nat :=
  match v with
  | JArr l => Ok (length l)
  | JStr s => Ok (String.length s)
  | JObj m => Ok (size m)
  | _ => Raise TypeError
  end.

(** One entry of [structural_metrics]. *)
Definition metrics_of (cfg : CFG) : result json :=
  n ← py_len (edges cfg);
  Ok (JObj {[ "num_nodes" := JInt (Z.of_nat (length (nodes cfg)));
              "num_edges" := JInt (Z.of_nat n);
              "complexity" := complexity cfg;
              "num_paths" := num_paths cfg;
              "nesting_depth" := nesting_depth cfg ]}).

Section Analyzers.

Variable sha256_hex : string -> string.
Variable CACHE_TTL_HOURS : Z.
Variable parse_json_response : string -> result json.
Variable generate_content : string -> option string.

(** [json.dumps(v, sort_keys=True)] and [json.dumps(v, indent=2)]. *)
Variable dumps_sorted : json -> string.
Variable dumps_indent : json -> string.

Variable COMPARE_CFGS_PROMPT : string.
Variable ANALYZE_PROBLEM_PROMPT : string.

(** What both analyzers do after the cache missed: call the collaborator,
    decode its text, store the decoded document and return it.  There is no
    [try]: whatever is raised goes to the caller. *)
Definition ask_and_store (now_expiry now_created : Z) (ct key prompt : string)
    (t : table) : result json * table :=
  match generate_content prompt with
  | None => (Raise CollaboratorError, t)
  | Some text =>
      match parse_json_response text with
      | Raise e => (Raise e, t)
      | Ok res =>
          (Ok res,
           set_cached_response CACHE_TTL_HOURS now_expiry now_created ct key res t)
      end
  end.

Definition compare_prompt (cfg1_dict cfg2_dict problem_analysis metrics : json) : string :=
  COMPARE_CFGS_PROMPT ++ nl ++ nl
  ++ "Problem Analysis:" ++ nl ++ dumps_indent problem_analysis ++ nl ++ nl
  ++ "Solution 1 CFG:" ++ nl ++ dumps_indent cfg1_dict ++ nl ++ nl
  ++ "Solution 2 CFG:" ++ nl ++ dumps_indent cfg2_dict ++ nl ++ nl
  ++ "Structural Metrics:" ++ nl ++ dumps_indent metrics ++ nl ++ nl
  ++ "Compare these solutions and determine which is better.".

Definition compare_key (cfg1 cfg2 : CFG) (problem_analysis : json) : string :=
  generate_cache_key sha256_hex "compare_cfgs"
    [ dumps_sorted (cfg_to_dict cfg1); dumps_sorted (cfg_to_dict cfg2);
      dumps_sorted problem_analysis ].

Definition compare_cfgs (now_get now_expiry now_created : Z) (cfg1 cfg2 : CFG)
    (problem_analysis : json) (t : table) : result json * table :=
  match (m1 ← metrics_of cfg1; m2 ← metrics_of cfg2;
         Ok (JObj {[ "cfg1" := m1; "cfg2" := m2 ]})) with
  | Raise e => (Raise e, t)
  | Ok structural_metrics =>
      let cfg1_dict := cfg_to_dict cfg1 in
      let cfg2_dict := cfg_to_dict cfg2 in
      let cache_key := compare_key cfg1 cfg2 problem_analysis in
      let prompt :=
        compare_prompt cfg1_dict cfg2_dict problem_analysis structural_metrics in
      match get_cached_response now_get "compare_cfgs" cache_key t with
      | (cached, t) =>
          if is_none cached
          then ask_and_store now_expiry now_created "compare_cfgs" cache_key prompt t
          else (Ok (default JNull cached), t)
      end
  end.

Definition analyze_problem (now_get now_expiry now_created : Z)
    (problem_statement : string) (t : table) : result json * table :=
  let cache_key := generate_cache_key sha256_hex "analyze_problem" [problem_statement] in
  let prompt :=
    ANALYZE_PROBLEM_PROMPT ++ nl ++ nl ++ "Problem Statement:" ++ nl
    ++ problem_statement in
  match get_cached_response now_get "analyze_problem" cache_key t with
  | (cached, t) =>
      if is_none cached
      then ask_and_store now_expiry now_created "analyze_problem" cache_key prompt t
      else (Ok (default JNull cached), t)
  end.

End Analyzers.

(** ** Notions for the further properties *)

(** The key of a row. *)
Definition key_of (r : row) : string * string := (call_type r, content_hash r).

(** The table as the database keeps it: no two rows with the same id, no
    two rows with the same key. *)
Definition well_formed (t : table) : Prop :=
  NoDup (row_id <$> t) ∧ NoDup (key_of <$> t).

(** A row without its hit counter. *)
Definition payload (r : row) : nat * string * string * json * Z * Z :=
  (row_id r, call_type r, content_hash r, response r, created_at r, expires_at r).

(** A text without the character of the separator. *)
Fixpoint bar_free (s : string) : bool :=
  match s with
  | EmptyString => true
  | String c r => negb (Ascii.eqb c "|"%char) && bar_free r
  end.

(** A list of statistics in the order of [ORDER BY hits DESC]. *)
Fixpoint descending (l : list type_stats) : Prop :=
  match l with
  | [] => True
  | x :: rest => Forall (fun y => ts_hits y <= ts_hits x) rest ∧ descending rest
  end.

(** The exceptions raised by the operations on JSON values. *)
Definition value_error (e : exn) : bool :=
  match e with
  | TypeError | AttributeError | KeyError => true
  | _ => false
  end.

(** [r] returns, or raises an exception that satisfies [P]. *)
Definition raises_only {A} (P : exn -> bool) (r : result A) : bool :=
  match r with
  | Ok _ => true
  | Raise e => P e
  end.

(** A text without a comma. *)
Fixpoint comma_free (s : string) : bool :=
  match s with
  | EmptyString => true
  | String c r => negb (Ascii.eqb c ","%char) && comma_free r
  end.

(** The outcome of a producer: nothing is stored, or the validated record
    that the returned graph was assembled from is stored under [key]. *)
Definition producer_outcome (ttl now_expiry now_created : Z) (ct key : string)
    (t : table) (p : result CFG * table) : Prop :=
  (forall e, fst p = Raise e -> e <> JSONDecodeError)
  ∧ (payload <$> snd p = payload <$> t
     ∨ exists raw rec cfg,
         validate_cfg raw = Ok rec ∧ to_entity rec = Ok cfg ∧ fst p = Ok cfg
         ∧ snd p = set_cached_response ttl now_expiry now_created ct key rec t).

(** A text in normal form: it holds no semicolon and no upper-case letter,
    its only whitespace character is the space, and a space is never the
    first character, never the last one and never followed by a space. *)
Definition canonical (s : list ascii) : Prop :=
  Forall (fun c => c <> ";"%char ∧ Normalizer.lower_char c = c
                   ∧ (Normalizer.is_space c = true -> c = " "%char)) s
  ∧ forall i, s !! i = Some " "%char ->
              0 < i ∧ exists c, s !! S i = Some c ∧ c <> " "%char.

(** * Properties *)

(** ** Cache key *)

(** C10. The key does not encode the pair (call type, parts) injectively:
    [generate_cache_key("a", "b||c")], [generate_cache_key("a||b", "c")] and
    [generate_cache_key("a", "b", "c")] are three different inputs that all
    hash the joined text "a||b||c", whatever the hash function, and so have
    the same key. *)
Theorem generate_cache_key_flat_separator (sha256_hex : string -> string) :
  ("a", ["b||c"]) ≠ ("a||b", ["c"])
  ∧ ("a||b", ["c"]) ≠ ("a", ["b"; "c"])
  ∧ ("a", ["b||c"]) ≠ ("a", ["b"; "c"])
  ∧ generate_cache_key sha256_hex "a" ["b||c"] = sha256_hex "a||b||c"
  ∧ generate_cache_key sha256_hex "a||b" ["c"] = sha256_hex "a||b||c"
  ∧ generate_cache_key sha256_hex "a" ["b"; "c"] = sha256_hex "a||b||c".
Proof.
  repeat split; try discriminate; reflexivity.
Qed.

(** ** Cache store *)

Lemma row_id_lt_fresh (t : table) (r : row) : r ∈ t -> row_id r < fresh_id t.
Proof.
  unfold fresh_id, list_max.
  induction 1 as [r t | r r' t _ IH]; rewrite fmap_cons; cbn [foldr]; lia.
Qed.

Lemma bump_other (i : nat) (r : row) : row_id r ≠ i -> bump i r = r.
Proof.
  intros Hne. unfold bump. destruct (Nat.eqb_spec (row_id r) i); congruence.
Qed.

Lemma bump_fresh_id (t : table) (l : list row) :
  l ⊆ t -> bump (fresh_id t) <$> l = l.
Proof.
  intros Hsub. induction l as [|r l IH]; [reflexivity|].
  cbn. rewrite bump_other.
  - f_equal. apply IH. intros x Hx. apply Hsub. now right.
  - assert (row_id r < fresh_id t) by (apply row_id_lt_fresh, Hsub; left). lia.
Qed.

Lemma find_none_app {A} (p : A -> bool) (l1 l2 : list A) :
  List.find p l1 = None -> List.find p (l1 ++ l2) = List.find p l2.
Proof.
  induction l1 as [|x l1 IH]; cbn; [reflexivity|].
  destruct (p x); [discriminate | exact IH].
Qed.

Lemma find_filter_none {A} (p q : A -> bool) (l : list A) :
  (forall x, q x = true -> p x = false) -> List.find p (List.filter q l) = None.
Proof.
  intros Hpq. induction l as [|x l IH]; cbn; [reflexivity|].
  destruct (q x) eqn:Hq; cbn; [rewrite (Hpq x Hq)|]; exact IH.
Qed.

Lemma has_key_refl (ct h : string) (i : nat) (v : json) (c e : Z) (n : nat) :
  has_key ct h (mkRow i ct h v c e n) = true.
Proof. unfold has_key; cbn. now rewrite !String.eqb_refl. Qed.

Lemma sum_hits_app (t1 t2 : table) : sum_hits (t1 ++ t2) = sum_hits t1 + sum_hits t2.
Proof. unfold sum_hits. now rewrite fmap_app, list_sum_app. Qed.

Lemma sum_hits_cons (r : row) (t : table) : sum_hits (r :: t) = hit_count r + sum_hits t.
Proof. reflexivity. Qed.

Lemma sum_hits_split (p : row -> bool) (t : table) :
  sum_hits t = sum_hits (List.filter p t) + sum_hits (List.filter (fun r => negb (p r)) t).
Proof.
  induction t as [|r t IH]; [reflexivity|].
  cbn [List.filter]. destruct (p r); cbn [negb]; rewrite !sum_hits_cons; lia.
Qed.

Lemma expired_not_live (now : Z) (r : row) : expired now r = negb (live now r).
Proof. unfold expired, live. destruct (Z.ltb_spec now (expires_at r)); cbn; lia. Qed.

(** C2 (as the code has it).  [total_cache_hits] is the sum of the hit counts
    of all rows of the table: the live ones and the expired ones that no
    sweep has removed yet. *)
Theorem total_cache_hits_counts_all_rows (ttl now_active now_by_type now : Z) (t : table) :
  total_cache_hits (get_cache_stats ttl now_active now_by_type t) = sum_hits t
  ∧ sum_hits t = sum_hits (List.filter (live now) t)
                 + sum_hits (List.filter (expired now) t).
Proof.
  split; [reflexivity|].
  rewrite (sum_hits_split (live now) t). f_equal.
  f_equal. apply List.filter_ext. intros r. now rewrite expired_not_live.
Qed.

(** C2 does not hold as stated: with one expired row that was hit three
    times, [total_cache_hits] is 3 while no live row has any hit. *)
Lemma total_cache_hits_not_live_only :
  let t := [mkRow 1 "pseudocode_to_cfg" "k" JNull 0 10 3] in
  total_cache_hits (get_cache_stats 24 20 20 t) = 3
  ∧ sum_hits (List.filter (live 20) t) = 0
  ∧ total_cache_hits (get_cache_stats 24 20 20 t)
    ≠ sum_hits (List.filter (live 20) t).
Proof. cbn. repeat split; discriminate. Qed.

(** What a store does, by whether the instant of expiry is one that a
    [datetime] holds. *)
Lemma set_cached_response_stores (ttl now_expiry now_created : Z) (ct h : string)
    (v : json) (t : table) :
  representable (now_expiry + ttl * 3600000000) = true ->
  set_cached_response ttl now_expiry now_created ct h v t
  = (List.filter (fun r => negb (has_key ct h r)) t
       ++ [mkRow (fresh_id t) ct h v now_created (now_expiry + ttl * 3600000000) 0])%list.
Proof. intros H. unfold set_cached_response. now rewrite H. Qed.

Lemma set_cached_response_fails (ttl now_expiry now_created : Z) (ct h : string)
    (v : json) (t : table) :
  representable (now_expiry + ttl * 3600000000) = false ->
  set_cached_response ttl now_expiry now_created ct h v t = t.
Proof. intros H. unfold set_cached_response. now rewrite H. Qed.

(** C7. Where the instant of expiry, the reading of the clock plus the
    TTL, is one that a [datetime] holds, after [set_cached_response] the
    entry has hit count 0; a [get_cached_response] on the same key before
    the entry expires returns the stored record and leaves the table with
    that entry's hit count at 1 and every other row as it was. *)
Theorem set_then_get (ttl now_expiry now_created now_get : Z) (ct h : string)
    (rec : json) (t : table) :
  representable (now_expiry + ttl * 3600000000) = true ->
  (now_get < now_expiry + ttl * 3600000000)%Z ->
  let t1 := set_cached_response ttl now_expiry now_created ct h rec t in
  let others := List.filter (fun r => negb (has_key ct h r)) t in
  let stored n := mkRow (fresh_id t) ct h rec now_created
                        (now_expiry + ttl * 3600000000) n in
  t1 = (others ++ [stored 0])%list
  ∧ hits_of ct h t1 = Some 0
  ∧ get_cached_response now_get ct h t1 = (Some rec, (others ++ [stored 1])%list)
  ∧ hits_of ct h (snd (get_cached_response now_get ct h t1)) = Some 1.
Proof.
  intros Hrep Hlive t1 others stored.
  assert (Ht1 : t1 = (others ++ [stored 0])%list)
    by (apply set_cached_response_stores, Hrep).
  assert (Hnone : forall q : row -> bool, (forall r, q r = true -> has_key ct h r = true) ->
                    List.find q others = None).
  { intros q Hq. apply find_filter_none. intros r Hr.
    destruct (q r) eqn:E; [|reflexivity]. apply Hq in E. now rewrite E in Hr. }
  assert (Hhits : forall n, hits_of ct h (others ++ [stored n])%list = Some n).
  { intros n. unfold hits_of. rewrite find_none_app by (apply Hnone; auto).
    cbn. unfold stored at 1. now rewrite has_key_refl. }
  assert (Hget : get_cached_response now_get ct h t1
                 = (Some rec, (others ++ [stored 1])%list)).
  { rewrite Ht1. unfold get_cached_response.
    rewrite find_none_app.
    2:{ apply Hnone. intros r Hr. now apply andb_true_iff in Hr as [? _]. }
    unfold stored. cbn. rewrite has_key_refl. unfold live; cbn.
    destruct (Z.ltb_spec now_get (now_expiry + ttl * 3600000000)); [|lia]. cbn.
    f_equal. rewrite fmap_app. cbn. f_equal.
    - apply bump_fresh_id. unfold others. intros x Hx.
      apply list_elem_of_In, List.filter_In in Hx as [Hx _]. now apply list_elem_of_In.
    - unfold bump; cbn. rewrite Nat.eqb_refl. reflexivity. }
  split; [exact Ht1|]. split; [rewrite Ht1; apply Hhits|]. split; [exact Hget|].
  rewrite Hget. apply Hhits.
Qed.

Lemma set_then_get_witness :
  get_cached_response 5 "t" "k" (set_cached_response 24 0 1 "t" "k" (JInt 7) [])
  = (Some (JInt 7), [mkRow 1 "t" "k" (JInt 7) 1 86400000000 1]).
Proof.
  refine (proj1 (proj2 (proj2 (set_then_get 24 0 1 5 "t" "k" (JInt 7) [] _ _))));
    reflexivity.
Defined.

Lemma get_without_live_row (now : Z) (ct h : string) (t : table) :
  Forall (fun r => has_key ct h r = true -> (expires_at r <= now)%Z) t ->
  get_cached_response now ct h t = (None, t).
Proof.
  intros Hall. unfold get_cached_response.
  replace (List.find _ t) with (@None row); [reflexivity|].
  symmetry. induction Hall as [|r t Hr _ IH]; [reflexivity|].
  cbn. destruct (has_key ct h r) eqn:Hk; cbn; [|exact IH].
  unfold live. destruct (Z.ltb_spec now (expires_at r)); [|exact IH].
  specialize (Hr eq_refl). lia.
Qed.

Lemma filter_filter_neg {A} (p : A -> bool) (l : list A) :
  List.filter p (List.filter (fun x => negb (p x)) l) = [].
Proof.
  induction l as [|x l IH]; [reflexivity|].
  cbn. destruct (p x) eqn:Hp; cbn; [|rewrite Hp]; exact IH.
Qed.

Lemma filter_neg_idem {A} (p : A -> bool) (l : list A) :
  List.filter (fun x => negb (p x)) (List.filter (fun x => negb (p x)) l)
  = List.filter (fun x => negb (p x)) l.
Proof.
  induction l as [|x l IH]; [reflexivity|].
  cbn. destruct (p x) eqn:Hp; cbn; [|rewrite Hp; cbn; f_equal]; exact IH.
Qed.

(** The sweep: what is removed, what stays, what is returned. *)
Lemma cleanup_spec (now : Z) (t : table) :
  let '(removed, t') := cleanup_expired_cache now t in
  (forall r, r ∈ t' <-> r ∈ t ∧ (now < expires_at r)%Z)
  ∧ removed = length (List.filter (fun r => Z.leb (expires_at r) now) t)
  ∧ length t = removed + length t'
  ∧ cleanup_expired_cache now t' = (0, t').
Proof.
  unfold cleanup_expired_cache. split; [|split; [|split]].
  - intros r. rewrite !list_elem_of_In, List.filter_In, <- list_elem_of_In.
    unfold expired. destruct (Z.leb_spec (expires_at r) now); cbn; intuition (try lia; congruence).
  - reflexivity.
  - induction t as [|r t IH]; [reflexivity|].
    cbn. destruct (expired now r); cbn; lia.
  - now rewrite filter_filter_neg, filter_neg_idem.
Qed.

(** C8. A key all of whose rows have expired ([expires_at <= now]) is
    answered with [None] by [get_cached_response], which leaves the table,
    and so the expired row, as it is.  [cleanup_expired_cache] keeps exactly
    the rows with [now < expires_at], returns the number of rows it removed,
    and run again on its own result (at the same instant) returns 0. *)
Theorem expiry_semantics (now : Z) (ct h : string) (t : table) :
  Forall (fun r => has_key ct h r = true -> (expires_at r <= now)%Z) t ->
  get_cached_response now ct h t = (None, t)
  ∧ (forall r, r ∈ snd (cleanup_expired_cache now t)
               <-> r ∈ t ∧ ¬ (expires_at r <= now)%Z)
  ∧ fst (cleanup_expired_cache now t)
    = length (List.filter (fun r => Z.leb (expires_at r) now) t)
  ∧ length t = fst (cleanup_expired_cache now t)
               + length (snd (cleanup_expired_cache now t))
  ∧ cleanup_expired_cache now (snd (cleanup_expired_cache now t))
    = (0, snd (cleanup_expired_cache now t)).
Proof.
  intros Hall. split; [now apply get_without_live_row|].
  pose proof (cleanup_spec now t) as H.
  destruct (cleanup_expired_cache now t) as [removed t'].
  destruct H as (Hin & Hn & Hlen & Hagain). cbn [fst snd].
  repeat split; try assumption; try (apply Hin; assumption).
  - apply Hin in H. lia.
  - intros [? ?]. apply Hin. split; [assumption | lia].
Qed.

Lemma expiry_semantics_witness :
  let t := [mkRow 1 "t" "k" (JInt 7) 0 10 2; mkRow 2 "t" "j" JNull 0 30 0] in
  get_cached_response 10 "t" "k" t = (None, t)
  ∧ cleanup_expired_cache 10 t = (1, [mkRow 2 "t" "j" JNull 0 30 0]).
Proof.
  intros t.
  split; [|reflexivity].
  refine (proj1 (expiry_semantics 10 "t" "k" t _)).
  repeat constructor; cbn; intros; (lia || discriminate).
Defined.

(** ** The fallback graph *)

(** C6. When the cache misses and the collaborator's text cannot be decoded
    ([parse_json_response] raises [JSONDecodeError]), [pseudocode_to_cfg]
    and [flowchart_to_cfg] raise nothing, write nothing to the cache and
    return the fallback graph: the chain node1 (START) -> node2 (PROCESS,
    carrying the error label) -> node3 (END), the two edges node1->node2 and
    node2->node3 with empty labels, complexity 1, one path, nesting depth 0. *)
Theorem undecodable_response_gives_fallback
    (sha256_hex : string -> string) (ttl : Z)
    (parse_json_response : string -> result json)
    (generate_content : string -> option string)
    (image : Type) (open_image : string -> option image)
    (generate_content_vision : string -> image -> option string)
    (P_PROMPT F_PROMPT : string)
    (now_get now_expiry now_created : Z) (t : table) (text : string) :
  parse_json_response text = Raise JSONDecodeError ->
  (forall pseudocode,
      fst (get_cached_response now_get "pseudocode_to_cfg"
             (generate_cache_key sha256_hex "pseudocode_to_cfg"
                                 [normalize_code pseudocode]) t) = None ->
      generate_content (P_PROMPT ++ nl ++ nl ++ "Pseudocode:" ++ nl ++ pseudocode)
      = Some text ->
      pseudocode_to_cfg sha256_hex ttl parse_json_response generate_content P_PROMPT
                        now_get now_expiry now_created pseudocode t
      = (Ok (fallback_cfg "Error parsing pseudocode"), t))
  ∧ (forall base64_image img,
      fst (get_cached_response now_get "flowchart_to_cfg"
             (generate_cache_key sha256_hex "flowchart_to_cfg" [base64_image]) t)
      = None ->
      open_image (image_data base64_image) = Some img ->
      generate_content_vision F_PROMPT img = Some text ->
      flowchart_to_cfg sha256_hex ttl parse_json_response image open_image
                       generate_content_vision F_PROMPT
                       now_get now_expiry now_created base64_image t
      = (Ok (fallback_cfg "Error parsing flowchart"), t))
  ∧ (forall marker,
      (fun n => (id n, type n, label n, next_nodes n, condition n))
        <$> nodes (fallback_cfg marker)
      = [ (JStr "node1", JStr "START", JStr "Start", JArr [JStr "node2"], JNull);
          (JStr "node2", JStr "PROCESS", JStr marker, JArr [JStr "node3"], JNull);
          (JStr "node3", JStr "END", JStr "End", JArr [], JNull) ]
      ∧ edges (fallback_cfg marker)
        = JArr [ JObj {[ "from" := JStr "node1"; "to" := JStr "node2";
                         "label" := JStr "" ]};
                 JObj {[ "from" := JStr "node2"; "to" := JStr "node3";
                         "label" := JStr "" ]} ]
      ∧ complexity (fallback_cfg marker) = JInt 1
      ∧ num_paths (fallback_cfg marker) = JInt 1
      ∧ nesting_depth (fallback_cfg marker) = JInt 0).
Proof.
  intros Hparse. split; [|split].
  - intros pseudocode Hmiss Hgen. unfold pseudocode_to_cfg.
    unfold get_cached_response in *.
    destruct (List.find _ t); [discriminate|].
    rewrite Hgen. unfold from_response. now rewrite Hparse.
  - intros base64_image img Hmiss Himg Hgen. unfold flowchart_to_cfg.
    unfold get_cached_response in *.
    destruct (List.find _ t); [discriminate|].
    rewrite Himg, Hgen. unfold from_response. now rewrite Hparse.
  - intros marker. repeat split.
Qed.

Lemma undecodable_response_gives_fallback_witness :
  pseudocode_to_cfg (fun s => s) 24 (fun _ => Raise JSONDecodeError)
                    (fun _ => Some "not json") "prompt" 0 0 0 "x = 1" []
  = (Ok (fallback_cfg "Error parsing pseudocode"), []).
Proof.
  refine (proj1 (undecodable_response_gives_fallback
                   (fun s => s) 24 (fun _ => Raise JSONDecodeError)
                   (fun _ => Some "not json") unit (fun _ => Some tt)
                   (fun _ _ => Some "not json") "prompt" "prompt" 0 0 0 []
                   "not json" eq_refl) "x = 1" eq_refl eq_refl).
Defined.

(** ** Validation *)

Lemma lookup_fill (k k' : string) (d : json) (m : gmap string json) :
  fill k d m !! k' = if decide (k = k') then Some (default d (m !! k)) else m !! k'.
Proof.
  unfold fill. destruct (m !! k) as [v|] eqn:Hk.
  - destruct (decide (k = k')) as [<-|]; [now rewrite Hk | reflexivity].
  - destruct (decide (k = k')) as [<-|]; cbn;
      [apply lookup_insert_eq | now apply lookup_insert_ne].
Qed.

Lemma dom_fill (k : string) (d : json) (m : gmap string json) :
  dom (fill k d m) = {[k]} ∪ dom m.
Proof.
  unfold fill. destruct (m !! k) as [v|] eqn:Hk.
  - assert (k ∈ dom m) by (apply elem_of_dom; eauto). set_solver.
  - apply dom_insert_L.
Qed.

Lemma fill_present (k : string) (d : json) (m : gmap string json) :
  is_Some (m !! k) -> fill k d m = m.
Proof. intros [v Hv]. unfold fill. now rewrite Hv. Qed.

Lemma ensure_obj (k : string) (d : json) (m : gmap string json) :
  ensure k d (JObj m) = Ok (JObj (fill k d m)).
Proof.
  unfold ensure, fill; cbn. destruct (m !! k) as [v|]; reflexivity.
Qed.

Lemma bind_ok {A B} (a : A) (f : A -> result B) : (Ok a ≫= f) = f a.
Proof. reflexivity. Qed.

Lemma py_getitem_obj (k : string) (m : gmap string json) (v : json) :
  m !! k = Some v -> py_getitem k (JObj m) = Ok v.
Proof. intros H. cbn. now rewrite H. Qed.

Lemma fix_node_obj (i : nat) (m : gmap string json) :
  fix_node i (JObj m) = Ok (complete_node i (JObj m)).
Proof. unfold fix_node. repeat first [rewrite ensure_obj | rewrite bind_ok]; reflexivity. Qed.

Lemma fix_edge_obj (m : gmap string json) :
  fix_edge (JObj m) = Ok (complete_edge (JObj m)).
Proof. unfold fix_edge. repeat first [rewrite ensure_obj | rewrite bind_ok]; reflexivity. Qed.

Lemma is_obj_inv (v : json) : is_obj v = true -> exists m, v = JObj m.
Proof. destruct v; try discriminate. eauto. Qed.

Lemma fix_nodes_from_objs (i : nat) (l : list json) :
  forallb is_obj l = true ->
  fix_nodes_from i l = Ok (imap (fun j => complete_node (i + j)) l).
Proof.
  revert i. induction l as [|v l IH]; intros i Hl; [reflexivity|].
  cbn in Hl. apply andb_true_iff in Hl as [Hv Hl].
  apply is_obj_inv in Hv as [m ->].
  cbn [fix_nodes_from]. rewrite fix_node_obj, bind_ok.
  rewrite (IH (S i) Hl), bind_ok. cbn [imap]. rewrite Nat.add_0_r. do 2 f_equal.
  apply imap_ext. intros j x _. cbn. now rewrite Nat.add_succ_r.
Qed.

Lemma fix_edges_objs (l : list json) :
  forallb is_obj l = true -> fix_edges l = Ok (complete_edge <$> l).
Proof.
  induction l as [|v l IH]; intros Hl; [reflexivity|].
  cbn in Hl. apply andb_true_iff in Hl as [Hv Hl].
  apply is_obj_inv in Hv as [m ->].
  cbn [fix_edges]. rewrite fix_edge_obj, bind_ok. now rewrite (IH Hl), bind_ok.
Qed.

Lemma complete_edge_is_obj (l : list json) :
  forallb is_obj l = true -> forallb is_obj (complete_edge <$> l) = true.
Proof.
  induction l as [|v l IH]; intros Hl; [reflexivity|].
  cbn in Hl. apply andb_true_iff in Hl as [Hv Hl].
  apply is_obj_inv in Hv as [m ->]. cbn. now apply IH.
Qed.

Lemma keep_edges_objs (l : list json) :
  forallb is_obj l = true -> keep_edges l = Ok (List.filter both_ends l).
Proof.
  induction l as [|v l IH]; intros Hl; [reflexivity|].
  cbn in Hl. apply andb_true_iff in Hl as [Hv Hl].
  apply is_obj_inv in Hv as [m ->].
  cbn [keep_edges List.filter]. rewrite (IH Hl).
  unfold edge_kept, both_ends; cbn.
  destruct (truthy (default JNull (m !! "from"))); cbn; [|reflexivity].
  destruct (truthy (default JNull (m !! "to"))); reflexivity.
Qed.

(** [validate_cfg] in closed form. *)
Lemma validate_cfg_obj (m : gmap string json) (ns es : list json) :
  with_defaults m !! "nodes" = Some (JArr ns) ->
  with_defaults m !! "edges" = Some (JArr es) ->
  forallb is_obj ns = true ->
  forallb is_obj es = true ->
  validate_cfg (JObj m) = Ok (validated m).
Proof.
  intros Hns Hes Hno Heo.
  unfold validate_cfg. repeat first [rewrite ensure_obj | rewrite bind_ok].
  fold (with_defaults m).
  rewrite (py_getitem_obj _ _ _ Hns), bind_ok.
  unfold fix_nodes. cbn [py_iter]. rewrite bind_ok.
  rewrite (fix_nodes_from_objs 0 ns Hno).
  repeat first [rewrite bind_ok | progress cbn [py_setitem py_iter]].
  rewrite (py_getitem_obj "edges" _ (JArr es))
    by (rewrite lookup_insert_ne by discriminate; exact Hes).
  repeat first [rewrite bind_ok | progress cbn [py_setitem py_iter]].
  rewrite (fix_edges_objs es Heo), bind_ok.
  rewrite (keep_edges_objs _ (complete_edge_is_obj es Heo)), bind_ok.
  cbn [py_setitem].
  unfold validated, record_list. now rewrite Hns, Hes.
Qed.

Ltac look :=
  repeat (rewrite lookup_fill;
          destruct (decide (_ = _)) as [?|?]; try discriminate; try congruence).

Ltac split_andb :=
  repeat match goal with
         | H : _ && _ = true |- _ => apply andb_true_iff in H as [? ?]
         | |- _ && _ = true => apply andb_true_iff; split
         end.

Lemma optional_required (P Q : json -> bool) (k : string) (d : json) (m m' : gmap string json) :
  optional P m k = true ->
  m' !! k = Some (default d (m !! k)) ->
  (forall v, P v = true -> Q v = true) -> Q d = true ->
  required Q m' k = true.
Proof.
  unfold optional, required. intros HP -> HPQ Hd.
  destruct (m !! k); cbn; auto.
Qed.

Lemma partial_node_is_obj (l : list json) :
  forallb partial_node l = true -> forallb is_obj l = true.
Proof.
  induction l as [|v l IH]; cbn; [reflexivity|]. intros H. split_andb; auto.
  now destruct v.
Qed.

Lemma partial_edge_is_obj (l : list json) :
  forallb partial_edge l = true -> forallb is_obj l = true.
Proof.
  induction l as [|v l IH]; cbn; [reflexivity|]. intros H. split_andb; auto.
  now destruct v.
Qed.

(** The node loop turns a partial node into a complete one. *)
Lemma complete_node_record (i : nat) (v : json) :
  partial_node v = true -> node_record (complete_node i v) = true.
Proof.
  destruct v as [| | | | |m]; try discriminate. cbn [partial_node complete_node node_record].
  intros H. split_andb.
  - apply bool_decide_eq_true. apply bool_decide_eq_true in H.
    rewrite !dom_fill. unfold node_fields in *. set_solver.
  - eapply optional_required; [eassumption | look; reflexivity | auto | reflexivity].
  - eapply optional_required; [eassumption | look; reflexivity | auto | reflexivity].
  - eapply optional_required; [eassumption | look; reflexivity | auto | reflexivity].
  - eapply optional_required; [eassumption | look; reflexivity | auto | reflexivity].
  - eapply optional_required; [eassumption | look; reflexivity | auto | reflexivity].
Qed.

(** A partial edge that survives the filter is a complete edge with two
    non-empty ends. *)
Lemma complete_edge_record (v : json) :
  partial_edge v = true -> both_ends (complete_edge v) = true ->
  edge_record (complete_edge v) = true.
Proof.
  destruct v as [| | | | |m]; try discriminate.
  cbn [partial_edge complete_edge edge_record both_ends field].
  intros H Hends.
  apply andb_true_iff in H as [H Hl]. apply andb_true_iff in H as [H Ht].
  apply andb_true_iff in H as [Hd Hf]. apply andb_true_iff in Hends as [Ef Et].
  split_andb.
  - apply bool_decide_eq_true. apply bool_decide_eq_true in Hd.
    rewrite !dom_fill. unfold edge_fields in *. set_solver.
  - revert Ef. unfold optional, required, field in *. look.
    destruct (m !! "from") as [[]|]; cbn in *; congruence.
  - revert Et. unfold optional, required, field in *. look.
    destruct (m !! "to") as [[]|]; cbn in *; congruence.
  - eapply optional_required; [eassumption | look; reflexivity | auto | reflexivity].
Qed.

Lemma optional_list (P : json -> bool) (m : gmap string json) (k : string) :
  optional (is_list_of P) m k = true ->
  exists l, default (JArr []) (m !! k) = JArr l ∧ forallb P l = true.
Proof.
  unfold optional. destruct (m !! k) as [v|]; cbn.
  - destruct v; try discriminate. eauto.
  - exists []. auto.
Qed.

Lemma forallb_imap (P Q : json -> bool) (l : list json) :
  forallb P l = true ->
  forall f : nat -> json -> json,
    (forall j v, P v = true -> Q (f j v) = true) ->
    forallb Q (imap f l) = true.
Proof.
  induction l as [|v l IH]; intros Hl f Hf; [reflexivity|].
  cbn in *. split_andb; [now apply Hf|]. apply IH; [assumption|].
  intros j x. apply Hf.
Qed.

Lemma surviving_edges_are_records (l : list json) :
  forallb partial_edge l = true ->
  forallb edge_record (List.filter both_ends (complete_edge <$> l)) = true.
Proof.
  induction l as [|v l IH]; intros Hl; [reflexivity|].
  cbn in Hl. apply andb_true_iff in Hl as [Hv Hl].
  rewrite fmap_cons. cbn [List.filter].
  destruct (both_ends (complete_edge v)) eqn:Hends; [|now apply IH].
  cbn. apply andb_true_iff. split; [now apply complete_edge_record | now apply IH].
Qed.

Lemma with_defaults_lookup (m : gmap string json) :
  with_defaults m !! "nodes" = Some (default (JArr []) (m !! "nodes"))
  ∧ with_defaults m !! "edges" = Some (default (JArr []) (m !! "edges"))
  ∧ with_defaults m !! "complexity" = Some (default (JInt 1) (m !! "complexity"))
  ∧ with_defaults m !! "num_paths" = Some (default (JInt 1) (m !! "num_paths"))
  ∧ with_defaults m !! "nesting_depth" = Some (default (JInt 0) (m !! "nesting_depth")).
Proof. unfold with_defaults. repeat split; look; reflexivity. Qed.

Lemma dom_with_defaults (m : gmap string json) :
  dom m ⊆ record_fields -> dom (with_defaults m) ⊆ record_fields.
Proof.
  unfold with_defaults, record_fields. rewrite !dom_fill. set_solver.
Qed.

(** On a partial graph record [validate_cfg] returns, and what it returns is
    a graph record. *)
Lemma validate_cfg_partial (m : gmap string json) :
  partial_graph_record (JObj m) = true ->
  validate_cfg (JObj m) = Ok (validated m) ∧ graph_record (validated m) = true.
Proof.
  cbn [partial_graph_record]. intros H.
  apply andb_true_iff in H as [H Hd]. apply andb_true_iff in H as [H Hp].
  apply andb_true_iff in H as [H Hc]. apply andb_true_iff in H as [H He].
  apply andb_true_iff in H as [Hdom Hn].
  apply bool_decide_eq_true in Hdom.
  destruct (optional_list _ _ _ Hn) as (ns & Ens & Hns).
  destruct (optional_list _ _ _ He) as (es & Ees & Hes).
  destruct (with_defaults_lookup m) as (Ln & Le & Lc & Lp & Ld).
  rewrite Ens in Ln. rewrite Ees in Le.
  split.
  - apply (validate_cfg_obj m ns es Ln Le);
      [now apply partial_node_is_obj | now apply partial_edge_is_obj].
  - unfold validated, record_list. rewrite Ln, Le. cbn [graph_record].
    split_andb.
    + apply bool_decide_eq_true. rewrite !dom_insert_L.
      pose proof (dom_with_defaults m Hdom). unfold record_fields in *. set_solver.
    + unfold required. rewrite lookup_insert_ne by discriminate.
      rewrite lookup_insert_eq. cbn.
      apply (forallb_imap partial_node); [assumption|].
      intros j v. apply complete_node_record.
    + unfold required. rewrite lookup_insert_eq. cbn.
      now apply surviving_edges_are_records.
    + unfold required. rewrite !lookup_insert_ne by discriminate. rewrite Lc.
      unfold optional in Hc. now destruct (m !! "complexity").
    + unfold required. rewrite !lookup_insert_ne by discriminate. rewrite Lp.
      unfold optional in Hp. now destruct (m !! "num_paths").
    + unfold required. rewrite !lookup_insert_ne by discriminate. rewrite Ld.
      unfold optional in Hd. now destruct (m !! "nesting_depth").
Qed.

Lemma node_ids_imap (l : list json) :
  forallb partial_node l = true ->
  forall (f : nat -> json -> json) (g : nat -> json -> string),
    (forall j v, partial_node v = true -> str_field "id" (f j v) = Some (g j v)) ->
    omap (str_field "id") (imap f l) = imap g l.
Proof.
  induction l as [|v l IH]; intros Hl f g Hfg; [reflexivity|].
  cbn in Hl. apply andb_true_iff in Hl as [Hv Hl].
  cbn. rewrite (Hfg 0 v Hv). f_equal. apply IH; [assumption|].
  intros j x. apply Hfg.
Qed.

Lemma complete_node_id (i : nat) (v : json) :
  partial_node v = true -> str_field "id" (complete_node i v) = Some (id_after i v).
Proof.
  destruct v as [| | | | |m]; try discriminate. cbn [partial_node]. intros H.
  split_andb. unfold id_after, str_field, complete_node. look.
  unfold optional in *. destruct (m !! "id") as [[]|]; cbn in *; congruence.
Qed.

(** C4 (as the code has it).  On every partial graph record [validate_cfg]
    returns, and the record it returns has the five top-level fields, nodes
    with all five fields, and only edges with a non-empty [from] and [to] and
    a label.  The ids are not made distinct: a node keeps the id it has, a
    node without one gets "node" followed by its position plus one. *)
Theorem validate_cfg_total (raw : json) :
  partial_graph_record raw = true ->
  exists r, validate_cfg raw = Ok r
            ∧ graph_record r = true
            ∧ node_ids r = imap id_after (record_list "nodes" raw).
Proof.
  destruct raw as [| | | | |m]; try discriminate. intros H.
  destruct (validate_cfg_partial m H) as [Hv Hr].
  exists (validated m). split; [assumption|]. split; [assumption|].
  cbn [partial_graph_record] in H. split_andb.
  match goal with Hn : optional _ m "nodes" = true |- _ =>
    destruct (optional_list _ _ _ Hn) as (ns & Ens & Hns) end.
  destruct (with_defaults_lookup m) as (Ln & _). rewrite Ens in Ln.
  unfold node_ids, validated. unfold record_list at 1.
  rewrite lookup_insert_ne by discriminate. rewrite lookup_insert_eq.
  unfold record_list at 1. rewrite Ln.
  replace (record_list "nodes" (JObj m)) with ns.
  - apply node_ids_imap; [assumption|]. intros j v. apply complete_node_id.
  - unfold record_list. destruct (m !! "nodes"); cbn in Ens; [now subst | congruence].
Qed.

Lemma validate_cfg_total_witness :
  exists r, validate_cfg (JObj {[ "nodes" := JArr [JObj ∅] ]}) = Ok r
            ∧ graph_record r = true
            ∧ node_ids r = ["node1"].
Proof.
  exact (validate_cfg_total (JObj {[ "nodes" := JArr [JObj ∅] ]}) eq_refl).
Defined.

(** C4 does not hold as stated: a partial graph record whose first node is
    called "node2" and whose second node has no id is validated into a
    record with two nodes called "node2". *)
Lemma validate_cfg_ids_not_distinct :
  let raw := JObj {[ "nodes" := JArr [JObj {[ "id" := JStr "node2" ]}; JObj ∅] ]} in
  partial_graph_record raw = true
  ∧ exists r, validate_cfg raw = Ok r
              ∧ node_ids r = ["node2"; "node2"]
              ∧ ¬ NoDup (node_ids r).
Proof.
  cbv zeta. split; [reflexivity|].
  eexists. split; [vm_compute; reflexivity|].
  split; [reflexivity|].
  intros Hnd. apply NoDup_cons in Hnd as [Hin _]. apply Hin. left.
Qed.

(** ** Records that are already complete *)

Lemma required_present (P : json -> bool) (m : gmap string json) (k : string) :
  required P m k = true -> exists v, m !! k = Some v ∧ P v = true.
Proof. unfold required. destruct (m !! k); [eauto | discriminate]. Qed.

Lemma required_is_Some (P : json -> bool) (m : gmap string json) (k : string) :
  required P m k = true -> is_Some (m !! k).
Proof. intros H. apply required_present in H as (v & -> & _). eauto. Qed.

Lemma complete_node_id_fix (i : nat) (v : json) :
  node_record v = true -> complete_node i v = v.
Proof.
  destruct v as [| | | | |m]; try discriminate. cbn [node_record complete_node].
  intros H. split_andb.
  repeat match goal with
         | |- context [fill ?k ?d m] =>
             rewrite (fill_present k d m) by eauto using required_is_Some
         end.
  reflexivity.
Qed.

Lemma complete_edge_id_fix (v : json) :
  edge_record v = true -> complete_edge v = v ∧ both_ends v = true.
Proof.
  destruct v as [| | | | |m]; try discriminate. cbn [edge_record complete_edge].
  intros H.
  apply andb_true_iff in H as [H Hl]. apply andb_true_iff in H as [H Ht].
  apply andb_true_iff in H as [_ Hf]. split.
  - repeat match goal with
           | |- context [fill ?k ?d m] =>
               rewrite (fill_present k d m) by eauto using required_is_Some
           end.
    reflexivity.
  - unfold both_ends, field.
    apply required_present in Hf as (f & -> & Hf).
    apply required_present in Ht as (t & -> & Ht).
    destruct f, t; try discriminate. cbn in *. now rewrite Hf, Ht.
Qed.

Lemma imap_fix (P : json -> bool) (l : list json) :
  forallb P l = true ->
  forall f : nat -> json -> json,
    (forall j v, P v = true -> f j v = v) -> imap f l = l.
Proof.
  induction l as [|v l IH]; intros Hl f Hf; [reflexivity|].
  cbn in Hl. apply andb_true_iff in Hl as [Hv Hl].
  cbn. rewrite (Hf 0 v Hv). f_equal. apply IH; [assumption|].
  intros j x. apply Hf.
Qed.

Lemma complete_edges_fix (l : list json) :
  forallb edge_record l = true ->
  complete_edge <$> l = l ∧ List.filter both_ends l = l.
Proof.
  induction l as [|v l IH]; intros Hl; [split; reflexivity|].
  cbn in Hl. apply andb_true_iff in Hl as [Hv Hl].
  destruct (IH Hl) as [IH1 IH2]. destruct (complete_edge_id_fix v Hv) as [E1 E2].
  rewrite fmap_cons. cbn [List.filter]. rewrite E1, E2, IH1, IH2. split; reflexivity.
Qed.

Lemma node_record_is_obj (l : list json) :
  forallb node_record l = true -> forallb is_obj l = true.
Proof.
  induction l as [|v l IH]; cbn; [reflexivity|]. intros H. split_andb; auto.
  now destruct v.
Qed.

(** The canonical shape of a graph record. *)
Lemma graph_record_inv (r : json) :
  graph_record r = true ->
  exists m ns es c p d,
    r = JObj m
    ∧ dom m ⊆ record_fields
    ∧ m !! "nodes" = Some (JArr ns) ∧ forallb node_record ns = true
    ∧ m !! "edges" = Some (JArr es) ∧ forallb edge_record es = true
    ∧ m !! "complexity" = Some c
    ∧ m !! "num_paths" = Some p
    ∧ m !! "nesting_depth" = Some d.
Proof.
  destruct r as [| | | | |m]; try discriminate. cbn [graph_record]. intros H.
  apply andb_true_iff in H as [H Hd]. apply andb_true_iff in H as [H Hp].
  apply andb_true_iff in H as [H Hc]. apply andb_true_iff in H as [H He].
  apply andb_true_iff in H as [Hdom Hn]. apply bool_decide_eq_true in Hdom.
  apply required_present in Hn as (vn & En & Hn).
  apply required_present in He as (ve & Ee & He).
  apply required_present in Hc as (c & Ec & _).
  apply required_present in Hp as (p & Ep & _).
  apply required_present in Hd as (d & Ed & _).
  destruct vn as [| | | |ns|]; try discriminate.
  destruct ve as [| | | |es|]; try discriminate.
  exists m, ns, es, c, p, d. repeat split; assumption.
Qed.

Lemma with_defaults_fix (m : gmap string json) :
  is_Some (m !! "nodes") -> is_Some (m !! "edges") -> is_Some (m !! "complexity") ->
  is_Some (m !! "num_paths") -> is_Some (m !! "nesting_depth") ->
  with_defaults m = m.
Proof.
  intros. unfold with_defaults.
  repeat match goal with
         | |- context [fill ?k ?d m] => rewrite (fill_present k d m) by assumption
         end.
  reflexivity.
Qed.

(** [validate_cfg] on a dict that has its five fields, complete nodes and a
    list of dicts for edges: only the edge filter acts. *)
Lemma validate_cfg_complete (m : gmap string json) (ns es : list json) :
  m !! "nodes" = Some (JArr ns) -> forallb node_record ns = true ->
  m !! "edges" = Some (JArr es) -> forallb is_obj es = true ->
  is_Some (m !! "complexity") -> is_Some (m !! "num_paths") ->
  is_Some (m !! "nesting_depth") ->
  validate_cfg (JObj m)
  = Ok (JObj (<["edges" := JArr (List.filter both_ends (complete_edge <$> es))]> m)).
Proof.
  intros Hn Hns He Hes Hc Hp Hd.
  assert (Hm : with_defaults m = m) by (apply with_defaults_fix; eauto).
  rewrite (validate_cfg_obj m ns es); rewrite ?Hm; auto using node_record_is_obj.
  unfold validated, record_list. rewrite Hm, Hn, He.
  rewrite (imap_fix node_record ns Hns) by (intros; now apply complete_node_id_fix).
  now rewrite (insert_id m "nodes" (JArr ns) Hn).
Qed.

(** Validation changes nothing in a graph record. *)
Lemma validate_cfg_idempotent (r : json) :
  graph_record r = true -> validate_cfg r = Ok r.
Proof.
  intros H.
  apply graph_record_inv in H
    as (m & ns & es & c & p & d & -> & _ & Hn & Hns & He & Hes & Hc & Hp & Hd).
  destruct (complete_edges_fix es Hes) as [E1 E2].
  assert (Hobj : forallb is_obj es = true).
  { clear -Hes. induction es as [|v l IH]; cbn in *; [reflexivity|].
    split_andb; auto. now destruct v. }
  rewrite (validate_cfg_complete m ns es) by eauto.
  rewrite E1, E2. now rewrite (insert_id m "edges" (JArr es) He).
Qed.

Lemma filter_drop_one (es1 es2 : list json) (e : json) :
  forallb edge_record es1 = true -> forallb edge_record es2 = true ->
  both_ends (complete_edge e) = false ->
  List.filter both_ends (complete_edge <$> (es1 ++ e :: es2)%list) = (es1 ++ es2)%list.
Proof.
  intros H1 H2 He.
  destruct (complete_edges_fix es1 H1) as [A1 B1].
  destruct (complete_edges_fix es2 H2) as [A2 B2].
  rewrite fmap_app, fmap_cons, List.filter_app. cbn [List.filter].
  now rewrite He, A1, A2, B1, B2.
Qed.

(** C9. [validate_cfg] on the empty record returns the record of the five
    defaults.  In a partial graph record, the node at position [i] that has
    no id is given the id "node" followed by [i + 1]: "node1" at position 0
    and "node5" at position 4.  In a record that is complete but for one
    edge that has no [to], the result is the same record with that edge
    removed from the list of edges: the nodes, the other edges, their order
    and the metrics are unchanged. *)
Theorem validate_cfg_defaults :
  validate_cfg (JObj ∅)
  = Ok (JObj {[ "nodes" := JArr []; "edges" := JArr []; "complexity" := JInt 1;
                "num_paths" := JInt 1; "nesting_depth" := JInt 0 ]})
  ∧ (forall raw i nm,
        partial_graph_record raw = true ->
        record_list "nodes" raw !! i = Some (JObj nm) ->
        nm !! "id" = None ->
        exists r n,
          validate_cfg raw = Ok r
          ∧ record_list "nodes" r !! i = Some n
          ∧ field "id" n = JStr ("node" ++ str_of_nat (i + 1)))
  ∧ "node" ++ str_of_nat (0 + 1) = "node1"
  ∧ "node" ++ str_of_nat (4 + 1) = "node5"
  ∧ (forall m es1 es2 em,
        m !! "edges" = Some (JArr (es1 ++ JObj em :: es2)) ->
        em !! "to" = None ->
        graph_record (JObj (<["edges" := JArr (es1 ++ es2)]> m)) = true ->
        validate_cfg (JObj m) = Ok (JObj (<["edges" := JArr (es1 ++ es2)]> m))).
Proof.
  split; [vm_compute; reflexivity|]. split; [|split; [reflexivity|split; [reflexivity|]]].
  - intros raw i nm Hraw Hi Hid.
    destruct raw as [| | | | |m]; try discriminate.
    destruct (validate_cfg_partial m Hraw) as [Hv _].
    cbn [partial_graph_record] in Hraw. split_andb.
    match goal with Hn : optional _ m "nodes" = true |- _ =>
      destruct (optional_list _ _ _ Hn) as (ns & Ens & Hns) end.
    destruct (with_defaults_lookup m) as (Ln & _). rewrite Ens in Ln.
    assert (Hl : record_list "nodes" (JObj m) = ns).
    { unfold record_list. destruct (m !! "nodes"); cbn in Ens; [now subst | congruence]. }
    rewrite Hl in Hi.
    exists (validated m), (complete_node i (JObj nm)).
    split; [assumption|]. split.
    + unfold validated. unfold record_list at 1.
      rewrite lookup_insert_ne by discriminate. rewrite lookup_insert_eq.
      unfold record_list. rewrite Ln. rewrite list_lookup_imap, Hi. reflexivity.
    + unfold field, complete_node. look. now rewrite Hid.
  - intros m es1 es2 em Hes Hto Hrec.
    apply graph_record_inv in Hrec
      as (m' & ns & es & c & p & d & E & _ & Hn & Hns & He & Hes' & Hc & Hp & Hd).
    injection E as <-.
    rewrite lookup_insert_eq in He. injection He as <-.
    rewrite lookup_insert_ne in Hn, Hc, Hp, Hd by discriminate.
    rewrite forallb_app in Hes'. apply andb_true_iff in Hes' as [H1 H2].
    assert (Hobj : forallb is_obj (es1 ++ JObj em :: es2)%list = true).
    { rewrite forallb_app. cbn. apply andb_true_iff. split.
      - clear -H1. induction es1 as [|v l IH]; cbn in *; [reflexivity|].
        split_andb; auto. now destruct v.
      - clear -H2. induction es2 as [|v l IH]; cbn in *; [reflexivity|].
        split_andb; auto. now destruct v. }
    rewrite (validate_cfg_complete m ns (es1 ++ JObj em :: es2)%list) by eauto.
    rewrite filter_drop_one; auto.
    unfold both_ends, field, complete_edge. look. rewrite Hto. cbn.
    apply andb_false_r.
Qed.

Lemma validate_cfg_defaults_witness :
  exists r n,
    validate_cfg (JObj {[ "nodes" := JArr [JObj {[ "id" := JStr "a" ]}; JObj ∅] ]}) = Ok r
    ∧ record_list "nodes" r !! 1 = Some n
    ∧ field "id" n = JStr "node2".
Proof.
  exact (proj1 (proj2 validate_cfg_defaults)
           (JObj {[ "nodes" := JArr [JObj {[ "id" := JStr "a" ]}; JObj ∅] ]})
           1 ∅ eq_refl eq_refl eq_refl).
Defined.

(** ** The assembler *)

Lemma asdict_make_node (v : json) :
  node_record v = true -> exists n, make_node v = Ok n ∧ asdict n = v.
Proof.
  destruct v as [| | | | |m]; try discriminate. cbn [node_record]. intros H.
  apply andb_true_iff in H as [H Hc]. apply andb_true_iff in H as [H Hn].
  apply andb_true_iff in H as [H Hl]. apply andb_true_iff in H as [H Ht].
  apply andb_true_iff in H as [Hdom Hi].
  apply required_present in Hi as (i & Ei & _).
  apply required_present in Ht as (t & Et & _).
  apply required_present in Hl as (l & El & _).
  apply required_present in Hn as (n & En & _).
  apply required_present in Hc as (c & Ec & _).
  exists (mkCFGNode i t l n c). split.
  - unfold make_node. rewrite Hdom, Ei, Et, El, En, Ec. reflexivity.
  - unfold asdict; cbn. f_equal. apply map_eq. intros k.
    apply bool_decide_eq_true in Hdom.
    destruct (decide (k = "id")) as [->|]; [now rewrite lookup_insert_eq|].
    rewrite lookup_insert_ne by congruence.
    destruct (decide (k = "type")) as [->|]; [now rewrite lookup_insert_eq|].
    rewrite lookup_insert_ne by congruence.
    destruct (decide (k = "label")) as [->|]; [now rewrite lookup_insert_eq|].
    rewrite lookup_insert_ne by congruence.
    destruct (decide (k = "next_nodes")) as [->|]; [now rewrite lookup_insert_eq|].
    rewrite lookup_insert_ne by congruence.
    destruct (decide (k = "condition")) as [->|]; [now rewrite lookup_singleton_eq|].
    rewrite lookup_singleton_ne by congruence.
    symmetry. apply not_elem_of_dom. unfold node_fields in Hdom. set_solver.
Qed.

Lemma asdict_make_nodes (l : list json) :
  forallb node_record l = true ->
  exists ns, make_nodes l = Ok ns ∧ asdict <$> ns = l.
Proof.
  induction l as [|v l IH]; intros Hl; [exists []; split; reflexivity|].
  cbn in Hl. apply andb_true_iff in Hl as [Hv Hl].
  destruct (asdict_make_node v Hv) as (n & En & An).
  destruct (IH Hl) as (ns & Ens & Ans).
  exists (n :: ns). split.
  - cbn [make_nodes]. now rewrite En, bind_ok, Ens, bind_ok.
  - rewrite fmap_cons. now rewrite An, Ans.
Qed.

(** Assembling a graph record never fails; the entity holds the record's
    list of edges as it is and serializes back to the record. *)
Lemma to_entity_record (r : json) :
  graph_record r = true ->
  exists g, to_entity r = Ok g
            ∧ edges g = JArr (record_list "edges" r)
            ∧ cfg_to_dict g = r.
Proof.
  intros H.
  apply graph_record_inv in H
    as (m & ns & es & c & p & d & -> & Hdom & Hn & Hns & He & Hes & Hc & Hp & Hd).
  destruct (asdict_make_nodes ns Hns) as (nodes & Enodes & Anodes).
  exists (mkCFG nodes (JArr es) c p d). split; [|split].
  - unfold to_entity.
    rewrite (py_getitem_obj _ _ _ Hn), bind_ok. cbn [py_iter]. rewrite bind_ok.
    rewrite Enodes, bind_ok.
    rewrite (py_getitem_obj _ _ _ He), bind_ok.
    rewrite (py_getitem_obj _ _ _ Hc), bind_ok.
    rewrite (py_getitem_obj _ _ _ Hp), bind_ok.
    rewrite (py_getitem_obj _ _ _ Hd), bind_ok. reflexivity.
  - cbn. unfold record_list. now rewrite He.
  - unfold cfg_to_dict; cbn. rewrite Anodes. f_equal. apply map_eq. intros k.
    destruct (decide (k = "nodes")) as [->|]; [now rewrite lookup_insert_eq|].
    rewrite lookup_insert_ne by congruence.
    destruct (decide (k = "edges")) as [->|]; [now rewrite lookup_insert_eq|].
    rewrite lookup_insert_ne by congruence.
    destruct (decide (k = "complexity")) as [->|]; [now rewrite lookup_insert_eq|].
    rewrite lookup_insert_ne by congruence.
    destruct (decide (k = "num_paths")) as [->|]; [now rewrite lookup_insert_eq|].
    rewrite lookup_insert_ne by congruence.
    destruct (decide (k = "nesting_depth")) as [->|]; [now rewrite lookup_singleton_eq|].
    rewrite lookup_singleton_ne by congruence.
    symmetry. apply not_elem_of_dom. unfold record_fields in Hdom. set_solver.
Qed.

Lemma make_node_asdict (n : CFGNode) : make_node (asdict n) = Ok n.
Proof.
  destruct n as [i t l nx c]. unfold make_node, asdict; cbn [id type label next_nodes condition].
  rewrite bool_decide_eq_true_2.
  - rewrite lookup_insert_eq.
    rewrite lookup_insert_ne by discriminate. rewrite lookup_insert_eq.
    rewrite !lookup_insert_ne by discriminate. rewrite lookup_insert_eq.
    rewrite !lookup_insert_ne by discriminate. rewrite lookup_insert_eq.
    rewrite !lookup_insert_ne by discriminate. rewrite lookup_singleton_eq.
    reflexivity.
  - rewrite !dom_insert_L, dom_singleton_L. unfold node_fields. set_solver.
Qed.

Lemma make_nodes_asdict (ns : list CFGNode) : make_nodes (asdict <$> ns) = Ok ns.
Proof.
  induction ns as [|n ns IH]; [reflexivity|].
  rewrite fmap_cons. cbn [make_nodes]. now rewrite make_node_asdict, bind_ok, IH, bind_ok.
Qed.

(** C5. On a validated graph record the assembler returns an entity, and
    serializing that entity with [cfg_to_dict] gives the record back (equality
    of dicts does not see the order of their fields).  [cfg_to_dict] is total,
    and assembling what it returns gives the entity back. *)
Theorem assemble_then_serialize (r : json) :
  graph_record r = true ->
  (exists g, to_entity r = Ok g ∧ cfg_to_dict g = r)
  ∧ (forall g : CFG, to_entity (cfg_to_dict g) = Ok g).
Proof.
  intros H. split.
  - destruct (to_entity_record r H) as (g & Hg & _ & Hd). eauto.
  - intros [ns es c p d]. unfold to_entity, cfg_to_dict; cbn [nodes edges complexity num_paths nesting_depth].
    rewrite (py_getitem_obj "nodes" _ (JArr (asdict <$> ns))), bind_ok
      by now rewrite lookup_insert_eq.
    cbn [py_iter]. rewrite bind_ok, make_nodes_asdict, bind_ok.
    rewrite (py_getitem_obj "edges" _ es), bind_ok
      by (rewrite lookup_insert_ne by discriminate; now rewrite lookup_insert_eq).
    rewrite (py_getitem_obj "complexity" _ c), bind_ok
      by (rewrite !lookup_insert_ne by discriminate; now rewrite lookup_insert_eq).
    rewrite (py_getitem_obj "num_paths" _ p), bind_ok
      by (rewrite !lookup_insert_ne by discriminate; now rewrite lookup_insert_eq).
    rewrite (py_getitem_obj "nesting_depth" _ d), bind_ok
      by (rewrite !lookup_insert_ne by discriminate; now rewrite lookup_singleton_eq).
    reflexivity.
Qed.

Lemma assemble_then_serialize_witness :
  exists g, to_entity sample_record = Ok g ∧ cfg_to_dict g = sample_record.
Proof.
  exact (proj1 (assemble_then_serialize sample_record eq_refl)).
Defined.

(** What the cache-hit path computes for a record that the cache returns,
    once that record is a graph record. *)
Lemma from_cache_record (r : json) :
  graph_record r = true -> from_cache r = to_entity r.
Proof.
  intros H. unfold from_cache. now rewrite (validate_cfg_idempotent r H), bind_ok.
Qed.

(** C1 (as the code has it).  The assembler makes no check of the ends of
    the edges: for a validated record with an edge one of whose ends is not
    the id of a node, the construction succeeds, on the cache-hit path and
    on the fresh-response path alike, and the graph it returns contains that
    edge. *)
Theorem dangling_edge_is_assembled (r e : json) :
  graph_record r = true ->
  e ∈ record_list "edges" r ->
  is_dangling (node_ids r) e = true ->
  exists g es,
    to_entity r = Ok g
    ∧ from_cache r = Ok g
    ∧ (forall ttl parse now_expiry now_created ct key marker text t,
          parse text = Ok r ->
          fst (from_response ttl parse now_expiry now_created ct key marker text t)
          = Ok g)
    ∧ edges g = JArr es
    ∧ e ∈ es.
Proof.
  intros H He _.
  destruct (to_entity_record r H) as (g & Hg & Hes & _).
  exists g, (record_list "edges" r).
  split; [assumption|]. split; [now rewrite from_cache_record|].
  split; [|split; assumption].
  intros ttl parse now_expiry now_created ct key marker text t Hparse.
  unfold from_response. now rewrite Hparse, (validate_cfg_idempotent r H), Hg.
Qed.

Lemma dangling_edge_is_assembled_witness :
  exists g es,
    to_entity sample_record = Ok g
    ∧ edges g = JArr es
    ∧ JObj {[ "from" := JStr "n1"; "to" := JStr "ghost"; "label" := JStr "" ]} ∈ es.
Proof.
  destruct (dangling_edge_is_assembled sample_record
              (JObj {[ "from" := JStr "n1"; "to" := JStr "ghost"; "label" := JStr "" ]})
              eq_refl (list_elem_of_here _ _) eq_refl)
    as (g & es & Hg & _ & _ & Hes & Hin).
  exists g, es. repeat split; assumption.
Defined.

(** C1 does not hold as stated: this validated record has an edge to
    "ghost", which is no node of it, and is assembled without any error. *)
Lemma dangling_edge_not_rejected :
  graph_record sample_record = true
  ∧ has_dangling_edge sample_record = true
  ∧ exists g, to_entity sample_record = Ok g
              ∧ from_cache sample_record = Ok g
              ∧ edges g = JArr [ JObj {[ "from" := JStr "n1"; "to" := JStr "ghost";
                                         "label" := JStr "" ]} ].
Proof.
  split; [reflexivity|]. split; [reflexivity|].
  eexists. split; [vm_compute; reflexivity|]. split; [vm_compute; reflexivity|].
  reflexivity.
Qed.

Module NormalizerFacts.

Import Normalizer.
Local Open Scope char_scope.
Local Open Scope list_scope.

(** ** The normalizer *)

(** *** Characters *)

Ltac by_cases_on_char c :=
  destruct c as [[] [] [] [] [] [] [] []]; vm_compute; repeat split; congruence.










(** *** The equations of the scanners *)






(** *** Letter case *)















(** *** The text of a single-line comment *)














(** *** The length of a whitespace run *)






















(** *** A semicolon that ends a statement *)














(** *** Outside single-line comments *)























(** *** A whitespace run outside single-line comments *)


(** *** The text of a block comment *)










(** *** Block comments and the block scanner *)





(** *** A block comment in a single-line comment *)




(** ** Whitespace at the ends of the text *)












(** *** All trivial differences *)




(** The guarded edits are edits of the kinds of the specification. *)
Lemma trivial_edit_guarded (a b : text) :
  trivial_edit true a b -> trivial_edit false a b.
Proof.
  intros [p m c1 c2 s Hm H1 H2 Hs | p c1 c2 s H1 H2 Hg | p s Hs
         | p w1 w2 s N1 N2 W1 W2 Hg | w s Hw | p w Hw | a' b' Hl].
  - now apply edit_line_comment.
  - apply edit_block_comment; auto; discriminate.
  - now apply edit_semicolon.
  - apply edit_whitespace; auto; discriminate.
  - now apply edit_leading_whitespace.
  - now apply edit_trailing_whitespace.
  - now apply edit_case.
Qed.

End NormalizerFacts.


(** The example of the docstring of [normalize_code]. *)
Example normalize_code_return_true :
  normalize_code "return true;" = normalize_code "return true".
Proof. reflexivity. Qed.



(** * Further properties *)

(** ** The cache store *)

Lemma bump_payload (i : nat) (r : row) : payload (bump i r) = payload r.
Proof. unfold bump. now destruct (Nat.eqb (row_id r) i). Qed.

Lemma bump_key (i : nat) (ct h : string) (r : row) :
  has_key ct h (bump i r) = has_key ct h r.
Proof. unfold bump. now destruct (Nat.eqb (row_id r) i). Qed.

Lemma fmap_bump_payload (i : nat) (t : table) :
  payload <$> (bump i <$> t) = payload <$> t.
Proof.
  induction t as [|r t IH]; [reflexivity|].
  rewrite !fmap_cons. now rewrite bump_payload, IH.
Qed.

Lemma fmap_bump_row_id (i : nat) (t : table) :
  row_id <$> (bump i <$> t) = row_id <$> t.
Proof.
  induction t as [|r t IH]; [reflexivity|].
  rewrite !fmap_cons, IH. f_equal. unfold bump. now destruct (Nat.eqb (row_id r) i).
Qed.

Lemma fmap_bump_key_of (i : nat) (t : table) :
  key_of <$> (bump i <$> t) = key_of <$> t.
Proof.
  induction t as [|r t IH]; [reflexivity|].
  rewrite !fmap_cons, IH. f_equal. unfold bump. now destruct (Nat.eqb (row_id r) i).
Qed.

Lemma find_none_forall {A} (p : A -> bool) (l : list A) :
  List.find p l = None -> forall x, x ∈ l -> p x = false.
Proof.
  intros H x Hx. apply list_elem_of_In in Hx.
  exact (List.find_none p l H x Hx).
Qed.

(** X1. What a lookup returns is the record of a row of the table that has
    the key and has not expired; a lookup changes nothing in the rows but
    hit counters, and a lookup that finds no row changes nothing at all and
    means that every row with the key has expired. *)
Theorem get_cached_response_sound (now : Z) (ct h : string) (t : table) :
  payload <$> snd (get_cached_response now ct h t) = payload <$> t
  ∧ match fst (get_cached_response now ct h t) with
    | Some v =>
        exists r, r ∈ t ∧ has_key ct h r = true ∧ (now < expires_at r)%Z
                  ∧ response r = v
    | None =>
        snd (get_cached_response now ct h t) = t
        ∧ forall r, r ∈ t -> has_key ct h r = true -> (expires_at r <= now)%Z
    end.
Proof.
  unfold get_cached_response.
  destruct (List.find _ t) as [r|] eqn:Hf; cbn [fst snd].
  - split; [apply fmap_bump_payload|].
    apply List.find_some in Hf as [Hin Hp].
    apply andb_true_iff in Hp as [Hk Hl].
    exists r. repeat split; auto.
    + now apply list_elem_of_In.
    + unfold live in Hl. now apply Z.ltb_lt.
  - split; [reflexivity|]. split; [reflexivity|].
    intros r Hr Hk. pose proof (find_none_forall _ _ Hf r Hr) as Hp.
    cbn in Hp. rewrite Hk in Hp. cbn in Hp. unfold live in Hp.
    now apply Z.ltb_ge.
Qed.

(** *** The invariant of the table *)

Lemma well_formed_nil : well_formed [].
Proof. split; constructor. Qed.

Lemma filter_sub {A} (p : A -> bool) (l : list A) (x : A) :
  x ∈ List.filter p l -> x ∈ l ∧ p x = true.
Proof. rewrite !list_elem_of_In. apply List.filter_In. Qed.

Lemma NoDup_fmap_filter {A B} (f : A -> B) (p : A -> bool) (l : list A) :
  NoDup (f <$> l) -> NoDup (f <$> List.filter p l).
Proof.
  induction l as [|x l IH]; [auto|]. rewrite fmap_cons. intros H.
  apply NoDup_cons in H as [Hx Hl]. cbn [List.filter].
  destruct (p x); [|now apply IH]. rewrite fmap_cons. apply NoDup_cons. split.
  - intros Hin. apply Hx. apply list_elem_of_fmap in Hin as (y & -> & Hy).
    apply list_elem_of_fmap. exists y. split; [reflexivity|]. now apply filter_sub in Hy.
  - now apply IH.
Qed.

Lemma has_key_key_of (ct h : string) (r : row) :
  has_key ct h r = true <-> key_of r = (ct, h).
Proof.
  unfold has_key, key_of. rewrite andb_true_iff, !String.eqb_eq. split.
  - now intros [-> ->].
  - intros H. now injection H.
Qed.

Lemma set_well_formed (ttl now_expiry now_created : Z) (ct h : string) (v : json)
    (t : table) :
  well_formed t ->
  well_formed (set_cached_response ttl now_expiry now_created ct h v t).
Proof.
  intros [Hid Hkey].
  destruct (representable (now_expiry + ttl * 3600000000)) eqn:Hrep;
    [|rewrite set_cached_response_fails by exact Hrep; now split].
  rewrite set_cached_response_stores by exact Hrep. unfold well_formed.
  rewrite !fmap_app. cbn [fmap list_fmap]. split; apply NoDup_app.
  - split; [now apply NoDup_fmap_filter|]. split; [|apply NoDup_singleton].
    intros i Hi Hi'. apply list_elem_of_singleton in Hi'. cbn in Hi'. subst i.
    apply list_elem_of_fmap in Hi as (r & E & Hr). apply filter_sub in Hr as [Hr _].
    pose proof (row_id_lt_fresh t r Hr). lia.
  - split; [now apply NoDup_fmap_filter|]. split; [|apply NoDup_singleton].
    intros k Hk Hk'. apply list_elem_of_singleton in Hk'. cbn in Hk'. subst k.
    apply list_elem_of_fmap in Hk as (r & E & Hr). apply filter_sub in Hr as [_ Hr].
    unfold key_of at 1 in E. cbn [call_type content_hash] in E.
    symmetry in E. apply has_key_key_of in E. now rewrite E in Hr.
Qed.

Lemma get_well_formed (now : Z) (ct h : string) (t : table) :
  well_formed t -> well_formed (snd (get_cached_response now ct h t)).
Proof.
  intros [Hid Hkey]. unfold get_cached_response.
  destruct (List.find _ t); cbn [snd]; [|now split].
  split; [now rewrite fmap_bump_row_id | now rewrite fmap_bump_key_of].
Qed.

Lemma cleanup_well_formed (now : Z) (t : table) :
  well_formed t -> well_formed (snd (cleanup_expired_cache now t)).
Proof.
  intros [Hid Hkey]. unfold cleanup_expired_cache. cbn [snd].
  split; now apply NoDup_fmap_filter.
Qed.

(** X2. The table stays well formed: starting from a table (the empty one,
    for instance) in which no two rows share an id and no two rows share a
    key, every store, lookup and sweep leaves such a table, whether the
    store writes or fails; and after a store whose instant of expiry is one
    that a [datetime] holds, exactly one row has the key that was stored. *)
Theorem store_operations_keep_well_formed (t : table) :
  well_formed t ->
  (forall ttl now_expiry now_created ct h v,
      well_formed (set_cached_response ttl now_expiry now_created ct h v t)
      ∧ (representable (now_expiry + ttl * 3600000000) = true ->
         length (List.filter (has_key ct h)
                   (set_cached_response ttl now_expiry now_created ct h v t)) = 1))
  ∧ (forall now ct h, well_formed (snd (get_cached_response now ct h t)))
  ∧ (forall now, well_formed (snd (cleanup_expired_cache now t))).
Proof.
  intros Hwf. split; [|split].
  - intros ttl now_expiry now_created ct h v. split; [now apply set_well_formed|].
    intros Hrep. rewrite set_cached_response_stores by exact Hrep.
    rewrite List.filter_app, length_app.
    rewrite (filter_filter_neg (has_key ct h)). cbn. now rewrite has_key_refl.
  - intros. now apply get_well_formed.
  - intros. now apply cleanup_well_formed.
Qed.

(** *** Lookups after stores *)

Lemma find_app {A} (p : A -> bool) (l1 l2 : list A) :
  List.find p (l1 ++ l2)
  = match List.find p l1 with Some x => Some x | None => List.find p l2 end.
Proof.
  induction l1 as [|x l1 IH]; [reflexivity|]. cbn. now destruct (p x).
Qed.

Lemma find_filter_implied {A} (p q : A -> bool) (l : list A) :
  (forall x, p x = true -> q x = true) ->
  List.find p (List.filter q l) = List.find p l.
Proof.
  intros Hpq. induction l as [|x l IH]; [reflexivity|]. cbn.
  destruct (p x) eqn:Hp.
  - rewrite (Hpq x Hp). cbn. now rewrite Hp.
  - destruct (q x); cbn; [rewrite Hp|]; exact IH.
Qed.

Lemma has_key_other (ct h ct' h' : string) (i : nat) (v : json) (c e : Z) (n : nat) :
  (ct', h') <> (ct, h) -> has_key ct' h' (mkRow i ct h v c e n) = false.
Proof.
  intros Hne. unfold has_key; cbn.
  destruct (String.eqb_spec ct ct'), (String.eqb_spec h h'); subst; try reflexivity.
  now contradict Hne.
Qed.

Lemma has_key_distinct (ct h ct' h' : string) (r : row) :
  (ct', h') <> (ct, h) -> has_key ct' h' r = true -> has_key ct h r = false.
Proof.
  intros Hne Hk. apply has_key_key_of in Hk.
  destruct (has_key ct h r) eqn:E; [|reflexivity].
  apply has_key_key_of in E. congruence.
Qed.

(** The row that a store has written, with [n] hits, among the rows of the
    other keys. *)
Lemma get_on_stored (ttl now_expiry now_created now : Z) (ct h : string) (v : json)
    (t : table) (n : nat) :
  (now < now_expiry + ttl * 3600000000)%Z ->
  let others := List.filter (fun r => negb (has_key ct h r)) t in
  let stored k := mkRow (fresh_id t) ct h v now_created
                        (now_expiry + ttl * 3600000000) k in
  get_cached_response now ct h (others ++ [stored n])
  = (Some v, (others ++ [stored (n + 1)])%list).
Proof.
  intros Hlive others stored. subst others stored. cbv beta.
  unfold get_cached_response. rewrite find_app.
  rewrite (find_filter_none _ (fun r => negb (has_key ct h r))).
  2:{ intros r Hr. apply negb_true_iff in Hr. now rewrite Hr. }
  cbn [List.find]. rewrite has_key_refl. unfold live.
  cbn [expires_at]. destruct (Z.ltb_spec now (now_expiry + ttl * 3600000000)); [|lia].
  cbn [andb response row_id]. f_equal. rewrite fmap_app. f_equal.
  - apply bump_fresh_id. intros x Hx. now apply filter_sub in Hx.
  - cbn. unfold bump. cbn. now rewrite Nat.eqb_refl.
Qed.

Lemma hits_of_stored (ct h : string) (t : table) (i : nat) (v : json) (c e : Z) (n : nat) :
  hits_of ct h (List.filter (fun r => negb (has_key ct h r)) t ++ [mkRow i ct h v c e n])
  = Some n.
Proof.
  unfold hits_of. rewrite find_app.
  rewrite (find_filter_none _ (fun r => negb (has_key ct h r))).
  2:{ intros r Hr. now apply negb_true_iff in Hr. }
  cbn. now rewrite has_key_refl.
Qed.

(** X3. Keys are isolated.  A store under one key, whether it writes or
    fails, does not change what a lookup of another key returns; so after
    two stores under two different keys, the first of which had an instant
    of expiry that a [datetime] holds, a lookup of the first key before
    that instant still gives back its record. *)
Theorem stores_do_not_interfere (ttl now_expiry now_created now : Z)
    (ct h ct' h' : string) (v : json) (t : table) :
  (ct', h') <> (ct, h) ->
  fst (get_cached_response now ct' h'
         (set_cached_response ttl now_expiry now_created ct h v t))
  = fst (get_cached_response now ct' h' t)
  ∧ (forall ne' nc' v',
        representable (now_expiry + ttl * 3600000000) = true ->
        (now < now_expiry + ttl * 3600000000)%Z ->
        fst (get_cached_response now ct h
               (set_cached_response ttl ne' nc' ct' h' v'
                  (set_cached_response ttl now_expiry now_created ct h v t)))
        = Some v).
Proof.
  intros Hne.
  assert (Hiso : forall ne nc (a b a' b' : string) w u,
             (a', b') <> (a, b) ->
             fst (get_cached_response now a' b'
                    (set_cached_response ttl ne nc a b w u))
             = fst (get_cached_response now a' b' u)).
  { intros ne nc a b a' b' w u Hab.
    destruct (representable (ne + ttl * 3600000000)) eqn:Hrep;
      [|now rewrite set_cached_response_fails by exact Hrep].
    rewrite set_cached_response_stores by exact Hrep.
    unfold get_cached_response.
    rewrite find_app.
    rewrite (find_filter_implied _ (fun r => negb (has_key a b r))).
    2:{ intros r Hr. apply andb_true_iff in Hr as [Hk _].
        now rewrite (has_key_distinct a b a' b' r Hab Hk). }
    destruct (List.find _ u) as [r|]; [reflexivity|].
    cbn [List.find]. now rewrite has_key_other. }
  split; [now apply Hiso|].
  intros ne' nc' v' Hrep Hlive. rewrite Hiso by congruence.
  rewrite set_cached_response_stores by exact Hrep.
  now rewrite (get_on_stored ttl _ _ now ct h v t 0).
Qed.

Lemma stores_do_not_interfere_witness :
  fst (get_cached_response 5 "type_a" "ka"
         (set_cached_response 24 1 1 "type_b" "kb" (JInt 70)
            (set_cached_response 24 0 0 "type_a" "ka" (JInt 90) [])))
  = Some (JInt 90).
Proof.
  refine (proj2 (stores_do_not_interfere 24 0 0 5 "type_a" "ka" "type_b" "kb"
                   (JInt 90) [] _) 1%Z 1%Z (JInt 70) _ _).
  - discriminate.
  - reflexivity.
  - reflexivity.
Defined.

(** X4. Hits are counted.  After a store whose instant of expiry is one
    that a [datetime] holds, any sequence of lookups of the key, each before
    the entry expires, leaves the hit counter of the entry at the number of
    lookups made, and the entry still gives the stored record. *)
Theorem hits_are_counted (ttl now_expiry now_created : Z) (ct h : string)
    (v : json) (t : table) (nows : list Z) :
  representable (now_expiry + ttl * 3600000000) = true ->
  Forall (fun now => (now < now_expiry + ttl * 3600000000)%Z) nows ->
  let after :=
    List.fold_left (fun u now => snd (get_cached_response now ct h u)) nows
      (set_cached_response ttl now_expiry now_created ct h v t) in
  hits_of ct h after = Some (length nows)
  ∧ (forall now, (now < now_expiry + ttl * 3600000000)%Z ->
                 fst (get_cached_response now ct h after) = Some v).
Proof.
  intros Hrep Hall after.
  assert (Hshape : after
                   = (List.filter (fun r => negb (has_key ct h r)) t
                      ++ [mkRow (fresh_id t) ct h v now_created
                                (now_expiry + ttl * 3600000000) (length nows)])%list).
  { unfold after. rewrite set_cached_response_stores by exact Hrep.
    replace (length nows) with (0 + length nows) by reflexivity.
    generalize 0 as n. induction Hall as [|now nows Hnow _ IH]; intros n.
    - cbn. now rewrite Nat.add_0_r.
    - cbn [List.fold_left length].
      rewrite (get_on_stored ttl now_expiry now_created now ct h v t n Hnow).
      cbn [snd]. rewrite IH. do 3 f_equal. lia. }
  rewrite Hshape. split; [apply hits_of_stored|].
  intros now Hnow.
  now rewrite (get_on_stored ttl now_expiry now_created now ct h v t _ Hnow).
Qed.

Lemma hits_are_counted_witness :
  hits_of "t" "k"
    (List.fold_left (fun u now => snd (get_cached_response now "t" "k" u)) [1; 2; 3]%Z
       (set_cached_response 24 0 0 "t" "k" (JInt 7) []))
  = Some 3.
Proof.
  refine (proj1 (hits_are_counted 24 0 0 "t" "k" (JInt 7) [] [1; 2; 3]%Z _ _)).
  - reflexivity.
  - repeat constructor.
Defined.

(** X5. The entry written by a store is no longer returned from the instant
    it expires on: where that instant is one that a [datetime] holds, so
    that the store writes, a lookup at or after [now + TTL] misses and
    leaves the table as the store left it.  With a TTL of zero hours or
    less, such a store is never followed in time by a hit. *)
Theorem stored_entry_expires (ttl now_expiry now_created now : Z) (ct h : string)
    (v : json) (t : table) :
  representable (now_expiry + ttl * 3600000000) = true ->
  (now_expiry + ttl * 3600000000 <= now)%Z ∨ (ttl <= 0 ∧ now_expiry <= now)%Z ->
  get_cached_response now ct h
    (set_cached_response ttl now_expiry now_created ct h v t)
  = (None, set_cached_response ttl now_expiry now_created ct h v t).
Proof.
  intros Hrep H. assert (Hexp : (now_expiry + ttl * 3600000000 <= now)%Z) by lia.
  apply get_without_live_row. rewrite set_cached_response_stores by exact Hrep.
  apply Forall_app. split.
  - apply Forall_forall. intros r Hr Hk. apply filter_sub in Hr as [_ Hr].
    now rewrite Hk in Hr.
  - repeat constructor. intros _. exact Hexp.
Qed.

Lemma stored_entry_expires_witness :
  get_cached_response 1 "t" "k" (set_cached_response 0 0 0 "t" "k" (JInt 7) [])
  = (None, [mkRow 1 "t" "k" (JInt 7) 0 0 0]).
Proof.
  refine (stored_entry_expires 0 0 0 1 "t" "k" (JInt 7) [] _ _);
    [reflexivity | right; lia].
Defined.

(** X6. A sweep is invisible to lookups: after the expired rows were
    removed, at that instant or any later one, every lookup returns what it
    would have returned without the sweep. *)
Theorem sweep_is_transparent (now now' : Z) (ct h : string) (t : table) :
  (now <= now')%Z ->
  fst (get_cached_response now' ct h (snd (cleanup_expired_cache now t)))
  = fst (get_cached_response now' ct h t).
Proof.
  intros Hle. unfold get_cached_response, cleanup_expired_cache. cbn [snd].
  rewrite (find_filter_implied _ (fun r => negb (expired now r))).
  - now destruct (List.find _ t).
  - intros r Hr. apply andb_true_iff in Hr as [_ Hl]. unfold live in Hl.
    apply Z.ltb_lt in Hl. unfold expired. apply negb_true_iff, Z.leb_gt. lia.
Qed.

Lemma sweep_is_transparent_witness :
  fst (get_cached_response 5 "t" "k"
         (snd (cleanup_expired_cache 5
                 [mkRow 1 "t" "j" JNull 0 3 0; mkRow 2 "t" "k" (JInt 7) 0 9 0])))
  = Some (JInt 7).
Proof.
  refine (sweep_is_transparent 5 5 "t" "k"
            [mkRow 1 "t" "j" JNull 0 3 0; mkRow 2 "t" "k" (JInt 7) 0 9 0] _).
  lia.
Defined.

Lemma store_operations_keep_well_formed_witness :
  well_formed (set_cached_response 24 0 0 "t" "k" JNull [])
  ∧ length (List.filter (has_key "t" "k")
              (set_cached_response 24 0 0 "t" "k" JNull [])) = 1.
Proof.
  destruct (proj1 (store_operations_keep_well_formed [] well_formed_nil)
              24%Z 0%Z 0%Z "t" "k" JNull) as [H1 H2].
  split; [exact H1 | apply H2; reflexivity].
Defined.

(** *** The statistics *)

Lemma list_sum_cons (x : nat) (l : list nat) : list_sum (x :: l) = x + list_sum l.
Proof. reflexivity. Qed.

Lemma insert_by_hits_sum (f : type_stats -> nat) (x : type_stats) (l : list type_stats) :
  list_sum (f <$> insert_by_hits x l) = f x + list_sum (f <$> l).
Proof.
  induction l as [|y l IH]; [reflexivity|]. cbn [insert_by_hits].
  destruct (Nat.ltb (ts_hits x) (ts_hits y)); [|reflexivity].
  rewrite !fmap_cons, !list_sum_cons, IH. lia.
Qed.

Lemma order_by_hits_sum (f : type_stats -> nat) (l : list type_stats) :
  list_sum (f <$> order_by_hits l) = list_sum (f <$> l).
Proof.
  induction l as [|x l IH]; [reflexivity|].
  cbn [order_by_hits foldr]. fold (order_by_hits l).
  now rewrite insert_by_hits_sum, fmap_cons, list_sum_cons, IH.
Qed.

Lemma insert_by_hits_perm (x : type_stats) (l : list type_stats) :
  insert_by_hits x l ≡ₚ x :: l.
Proof.
  induction l as [|y l IH]; [reflexivity|]. cbn [insert_by_hits].
  destruct (Nat.ltb (ts_hits x) (ts_hits y)); [|reflexivity].
  rewrite IH. apply Permutation_swap.
Qed.

Lemma order_by_hits_perm (l : list type_stats) : order_by_hits l ≡ₚ l.
Proof.
  induction l as [|x l IH]; [reflexivity|].
  cbn [order_by_hits foldr]. fold (order_by_hits l).
  now rewrite insert_by_hits_perm, IH.
Qed.

Lemma insert_by_hits_descending (x : type_stats) (l : list type_stats) :
  descending l -> descending (insert_by_hits x l).
Proof.
  induction l as [|y l IH]; intros Hl; [cbn; auto|].
  destruct Hl as [Hy Hl]. cbn [insert_by_hits].
  destruct (Nat.ltb_spec (ts_hits x) (ts_hits y)) as [Hlt | Hge].
  - split; [|now apply IH].
    rewrite insert_by_hits_perm. constructor; [lia | exact Hy].
  - split; [|now split]. constructor; [exact Hge|].
    eapply Forall_impl; [exact Hy|]. intros z Hz. cbn in Hz. lia.
Qed.

Lemma order_by_hits_descending (l : list type_stats) : descending (order_by_hits l).
Proof.
  induction l as [|x l IH]; [exact I|].
  cbn [order_by_hits foldr]. now apply insert_by_hits_descending.
Qed.

Lemma call_types_elem (t : table) (ct : string) :
  ct ∈ call_types t <-> exists r, r ∈ t ∧ call_type r = ct.
Proof.
  induction t as [|r t IH]; cbn [call_types].
  - split; [intros H; inversion H | intros (r & H & _); inversion H].
  - rewrite elem_of_cons, list_elem_of_In, List.filter_In, <- list_elem_of_In, IH.
    split.
    + intros [-> | [(x & Hx & <-) _]].
      * exists r. split; [left | reflexivity].
      * exists x. split; [now right | reflexivity].
    + intros (x & Hx & <-). apply elem_of_cons in Hx as [-> | Hx]; [now left|].
      destruct (String.eqb_spec (call_type x) (call_type r)) as [E | E]; [now left|].
      right. split; [now exists x | reflexivity].
Qed.

Lemma call_types_NoDup (t : table) : NoDup (call_types t).
Proof.
  induction t as [|r t IH]; cbn [call_types]; [constructor|].
  apply NoDup_cons. split.
  - intros H. apply list_elem_of_In, List.filter_In in H as [_ H].
    now rewrite String.eqb_refl in H.
  - clear -IH. induction IH as [|x l Hx _ IHl]; cbn; [constructor|].
    destruct (negb _); [|exact IHl]. apply NoDup_cons. split; [|exact IHl].
    intros H. apply Hx. apply list_elem_of_In, List.filter_In in H as [H _].
    now apply list_elem_of_In.
Qed.

(** The sum of [w] over the rows of call type [ct]. *)
Lemma group_total_cons (w : row -> nat) (ct : string) (r : row) (t : table) :
  list_sum (w <$> List.filter (fun x => String.eqb (call_type x) ct) (r :: t))
  = (if String.eqb (call_type r) ct then w r else 0)
    + list_sum (w <$> List.filter (fun x => String.eqb (call_type x) ct) t).
Proof. cbn [List.filter]. now destruct (String.eqb (call_type r) ct). Qed.

Lemma sum_split_out (F : string -> nat) (c : string) (l : list string) :
  NoDup l ->
  list_sum (F <$> l)
  = (if existsb (String.eqb c) l then F c else 0)
    + list_sum (F <$> List.filter (fun ct => negb (String.eqb ct c)) l).
Proof.
  induction 1 as [|y l Hy _ IH]; [reflexivity|].
  rewrite fmap_cons, list_sum_cons. cbn [existsb List.filter]. rewrite IH.
  destruct (String.eqb_spec c y) as [<- | Hne].
  - rewrite String.eqb_refl. cbn [orb negb].
    replace (existsb (String.eqb c) l) with false; [lia|].
    symmetry. apply not_true_iff_false. intros E.
    apply List.existsb_exists in E as (z & Hz & Ez). apply String.eqb_eq in Ez. subst z.
    apply Hy. now apply list_elem_of_In.
  - replace (String.eqb y c) with false
      by (symmetry; apply String.eqb_neq; congruence).
    cbn [orb negb]. rewrite fmap_cons, list_sum_cons. lia.
Qed.

Lemma sum_ext_in (F G : string -> nat) (l : list string) :
  (forall x, x ∈ l -> F x = G x) -> list_sum (F <$> l) = list_sum (G <$> l).
Proof.
  induction l as [|y l IH]; intros H; [reflexivity|].
  rewrite !fmap_cons, !list_sum_cons. rewrite (H y) by left. f_equal. apply IH.
  intros x Hx. apply H. now right.
Qed.

Lemma filter_none {A} (p : A -> bool) (l : list A) :
  (forall x, x ∈ l -> p x = false) -> List.filter p l = [].
Proof.
  induction l as [|y l IH]; intros H; [reflexivity|]. cbn.
  rewrite (H y) by left. apply IH. intros x Hx. apply H. now right.
Qed.

(** The groups of the call types partition the table. *)
Lemma groups_partition (w : row -> nat) (t : table) :
  list_sum ((fun ct =>
               list_sum (w <$> List.filter (fun x => String.eqb (call_type x) ct) t))
            <$> call_types t)
  = list_sum (w <$> t).
Proof.
  induction t as [|r t IH]; [reflexivity|].
  cbn [call_types]. rewrite !fmap_cons, !list_sum_cons.
  rewrite group_total_cons, String.eqb_refl.
  rewrite (sum_ext_in _
             (fun ct => list_sum (w <$> List.filter
                                    (fun x => String.eqb (call_type x) ct) t))).
  2:{ intros ct Hct. apply list_elem_of_In, List.filter_In in Hct as [_ Hct].
      rewrite group_total_cons.
      replace (String.eqb (call_type r) ct) with false; [reflexivity|].
      symmetry. apply negb_true_iff in Hct. now rewrite String.eqb_sym. }
  rewrite <- IH.
  rewrite (sum_split_out _ (call_type r) (call_types t) (call_types_NoDup t)).
  destruct (existsb (String.eqb (call_type r)) (call_types t)) eqn:E; [lia|].
  replace (list_sum (w <$> List.filter
                      (fun x => String.eqb (call_type x) (call_type r)) t)) with 0;
    [lia|].
  symmetry. rewrite filter_none; [reflexivity|]. intros x Hx.
  apply not_true_iff_false in E. apply not_true_iff_false. intros Ex. apply E.
  apply List.existsb_exists. exists (call_type r). split; [|apply String.eqb_refl].
  apply list_elem_of_In, call_types_elem. exists x.
  split; [assumption | now apply String.eqb_eq].
Qed.

Lemma length_as_sum {A} (l : list A) : length l = list_sum ((fun _ => 1) <$> l).
Proof.
  induction l as [|x l IH]; [reflexivity|].
  rewrite fmap_cons, list_sum_cons, <- IH. reflexivity.
Qed.

(** X7. The statistics are consistent.  The expired count is the number of
    rows whose expiry is at or before the instant of the count (never
    negative); the per-call-type list has one entry for each call type that
    has a live row, each with at least one entry, in descending order of
    hits; its entries add up to the number of live rows and its hits to the
    hits of the live rows. *)
Theorem cache_stats_consistent (ttl now_active now_by_type : Z) (t : table) :
  let s := get_cache_stats ttl now_active now_by_type t in
  let alive := List.filter (live now_by_type) t in
  (Z.of_nat (active_entries s) + expired_entries s = Z.of_nat (total_entries s))%Z
  ∧ expired_entries s = Z.of_nat (length (List.filter (expired now_active) t))
  ∧ list_sum (ts_entries <$> by_call_type s) = length alive
  ∧ list_sum (ts_hits <$> by_call_type s) = sum_hits alive
  ∧ descending (by_call_type s)
  ∧ NoDup (ts_call_type <$> by_call_type s)
  ∧ (forall ct, ct ∈ ts_call_type <$> by_call_type s
                <-> exists r, r ∈ t ∧ call_type r = ct ∧ (now_by_type < expires_at r)%Z)
  ∧ Forall (fun x => 1 <= ts_entries x) (by_call_type s).
Proof.
  intros s alive. unfold s, get_cache_stats.
  cbn [active_entries expired_entries total_entries by_call_type]. fold alive.
  assert (Hct : ts_call_type <$> order_by_hits (group_stats alive <$> call_types alive)
                ≡ₚ call_types alive).
  { rewrite order_by_hits_perm, <- list_fmap_compose.
    erewrite list_fmap_ext; [now rewrite list_fmap_id|]. reflexivity. }
  split; [lia|]. split.
  - rewrite (List.filter_ext (expired now_active) (fun r => negb (live now_active r)))
      by (intros; apply expired_not_live).
    pose proof (List.filter_length (live now_active) t). lia.
  - split; [|split; [|split; [|split; [|split]]]].
    + rewrite order_by_hits_sum, <- list_fmap_compose.
      rewrite (length_as_sum alive), <- (groups_partition (fun _ => 1) alive).
      f_equal. apply list_fmap_ext. intros _ ct _. cbn.
      apply length_as_sum.
    + rewrite order_by_hits_sum, <- list_fmap_compose.
      unfold sum_hits at 1. rewrite <- (groups_partition hit_count alive).
      reflexivity.
    + apply order_by_hits_descending.
    + rewrite Hct. apply call_types_NoDup.
    + intros ct. rewrite Hct, call_types_elem. split.
      * intros (r & Hr & E). apply filter_sub in Hr as [Hr Hl].
        exists r. repeat split; auto. unfold live in Hl. now apply Z.ltb_lt.
      * intros (r & Hr & E & Hl). exists r. split; [|exact E].
        apply list_elem_of_In, List.filter_In. split; [now apply list_elem_of_In|].
        unfold live. now apply Z.ltb_lt.
    + rewrite order_by_hits_perm. apply Forall_forall. intros x Hx.
      apply list_elem_of_fmap in Hx as (ct & -> & Hct'). cbn.
      apply call_types_elem in Hct' as (r & Hr & E).
      assert (Hin : r ∈ List.filter (fun x => String.eqb (call_type x) ct) alive).
      { apply list_elem_of_In, List.filter_In. split; [now apply list_elem_of_In|].
        now apply String.eqb_eq. }
      destruct (List.filter _ alive); [inversion Hin | cbn; lia].
Qed.

(** ** The cache key *)

Lemma bar_free_app_bar (x r : string) : bar_free (x ++ String "|" r) = false.
Proof.
  induction x as [|c x IH]; [reflexivity|].
  change (negb (Ascii.eqb c "|") && bar_free (x ++ String "|" r) = false).
  rewrite IH. apply andb_false_r.
Qed.

(** A text is cut in one way only at its first separator character. *)
Lemma split_at_bar (x x' r r' : string) :
  bar_free x = true -> bar_free x' = true ->
  x ++ String "|" r = x' ++ String "|" r' -> x = x' ∧ r = r'.
Proof.
  revert x'. induction x as [|c x IH]; intros x' Hx Hx' E.
  - destruct x' as [|c' x']; cbn in E.
    + injection E as <-. auto.
    + injection E as <- _. cbn in Hx'. discriminate.
  - destruct x' as [|c' x']; cbn in E.
    + injection E as -> _. cbn in Hx. discriminate.
    + injection E as <- E. cbn in Hx, Hx'.
      apply andb_true_iff in Hx as [_ Hx]. apply andb_true_iff in Hx' as [_ Hx'].
      destruct (IH x' Hx Hx' E) as [-> ->]. auto.
Qed.

Lemma join_cons2 (sep p q : string) (l : list string) :
  join sep (p :: q :: l) = p ++ sep ++ join sep (q :: l).
Proof. reflexivity. Qed.

Lemma join_one (sep p : string) : join sep [p] = p.
Proof. reflexivity. Qed.

Lemma two_bars (x : string) : "||" ++ x = String "|" (String "|" x).
Proof. reflexivity. Qed.

Lemma join_bars_injective (parts parts' : list string) :
  parts <> [] -> parts' <> [] ->
  Forall (fun p => bar_free p = true) parts ->
  Forall (fun p => bar_free p = true) parts' ->
  join "||" parts = join "||" parts' -> parts = parts'.
Proof.
  intros Hne Hne' Hall. revert parts' Hne'.
  induction Hall as [|p l Hp Hl IH]; intros parts' Hne' Hall' E; [congruence|].
  destruct Hall' as [|p' l' Hp' Hl']; [congruence|].
  destruct l as [|q l], l' as [|q' l'].
  - rewrite !join_one in E. now subst.
  - rewrite join_cons2, join_one, two_bars in E. subst p.
    now rewrite bar_free_app_bar in Hp.
  - rewrite join_cons2, join_one, two_bars in E. subst p'.
    now rewrite bar_free_app_bar in Hp'.
  - rewrite !join_cons2, !two_bars in E.
    apply split_at_bar in E as [-> E]; try assumption.
    injection E as E. f_equal. apply IH; try assumption; discriminate.
Qed.

(** X8. Where the separator cannot be confused with content, the key
    encodes its input: for a call type and a non-empty list of parts that
    hold no vertical bar, two inputs with different call types or parts give
    different texts to the hash, so that with a hash without collisions
    equal keys mean equal inputs.  The list of parts has to be non-empty: no
    part and one empty part give the same key. *)
Theorem generate_cache_key_injective (sha256_hex : string -> string)
    (ct ct' : string) (parts parts' : list string) :
  (forall x y, sha256_hex x = sha256_hex y -> x = y) ->
  bar_free ct = true -> bar_free ct' = true ->
  parts <> [] -> parts' <> [] ->
  Forall (fun p => bar_free p = true) parts ->
  Forall (fun p => bar_free p = true) parts' ->
  (generate_cache_key sha256_hex ct parts = generate_cache_key sha256_hex ct' parts'
   -> ct = ct' ∧ parts = parts')
  ∧ generate_cache_key sha256_hex ct [] = generate_cache_key sha256_hex ct [""].
Proof.
  intros Hinj Hct Hct' Hne Hne' Hall Hall'. split; [|reflexivity].
  intros E. unfold generate_cache_key in E. apply Hinj in E.
  rewrite !two_bars in E.
  apply split_at_bar in E as [-> E]; try assumption.
  injection E as E. split; [reflexivity|]. now apply join_bars_injective.
Qed.

Lemma generate_cache_key_injective_witness :
  (generate_cache_key (fun s => s) "type_a" ["shared"]
   = generate_cache_key (fun s => s) "type_b" ["shared"]
   -> "type_a" = "type_b" ∧ ["shared"] = ["shared"])
  ∧ generate_cache_key (fun s => s) "type_a" []
    = generate_cache_key (fun s => s) "type_a" [""].
Proof.
  refine ((generate_cache_key_injective (fun s => s) "type_a" "type_b"
                   ["shared"] ["shared"] (fun x y H => H) eq_refl eq_refl _ _ _ _));
    (discriminate || (repeat constructor)).
Defined.

(** ** Validation *)

Lemma ensure_not_obj (k : string) (d v : json) :
  is_obj v = false -> ensure k d v = Ok v ∨ ensure k d v = Raise TypeError.
Proof.
  destruct v; intros H; try discriminate; unfold ensure; cbn; auto.
  - destruct (is_substring k s); auto.
  - destruct (existsb (is_str k) l); auto.
Qed.

Lemma py_getitem_not_obj (k : string) (v : json) :
  is_obj v = false -> py_getitem k v = Raise TypeError.
Proof. now destruct v. Qed.

Lemma bind_raise {A B} (e : exn) (f : A -> result B) : (Raise e ≫= f) = Raise e.
Proof. reflexivity. Qed.

Lemma fix_node_atom (i : nat) (v : json) :
  match v with JNull | JBool _ | JInt _ => True | _ => False end ->
  fix_node i v = Raise TypeError.
Proof. now destruct v. Qed.

Lemma fix_node_not_obj (i : nat) (v : json) :
  is_obj v = false -> fix_node i v = Ok v ∨ fix_node i v = Raise TypeError.
Proof.
  intros H. unfold fix_node.
  do 4 (match goal with
        | |- context [ensure ?k ?d v ≫= _] =>
            destruct (ensure_not_obj k d v H) as [E | E]; rewrite E; clear E;
            [rewrite bind_ok | now right]
        end).
  apply ensure_not_obj, H.
Qed.

Lemma fix_node_raises_type_error (i : nat) (v : json) (e : exn) :
  fix_node i v = Raise e -> e = TypeError.
Proof.
  destruct (is_obj v) eqn:Hv.
  - apply is_obj_inv in Hv as [m ->]. rewrite fix_node_obj. congruence.
  - destruct (fix_node_not_obj i v Hv) as [-> | ->]; congruence.
Qed.

Lemma fix_nodes_from_atom (i : nat) (l : list json) :
  Exists (fun v => match v with JNull | JBool _ | JInt _ => True | _ => False end) l ->
  fix_nodes_from i l = Raise TypeError.
Proof.
  intros H. revert i. induction H as [v l Hv | v l _ IH]; intros i.
  - cbn [fix_nodes_from]. now rewrite (fix_node_atom i v Hv).
  - cbn [fix_nodes_from]. destruct (fix_node i v) as [n|e] eqn:E.
    + now rewrite bind_ok, IH.
    + apply fix_node_raises_type_error in E. now subst.
Qed.

(** X9. What [validate_cfg] does with input that is no record.  On a value
    that is not a dict (a list, a text, a number, null) it raises
    [TypeError]; and so it does on a dict whose list of nodes holds a number,
    a boolean or null. *)
Theorem validate_cfg_type_errors :
  (forall v, is_obj v = false -> validate_cfg v = Raise TypeError)
  ∧ (forall m ns,
        with_defaults m !! "nodes" = Some (JArr ns) ->
        Exists (fun v => match v with JNull | JBool _ | JInt _ => True | _ => False end) ns ->
        validate_cfg (JObj m) = Raise TypeError).
Proof.
  split.
  - intros v Hv. unfold validate_cfg.
    do 5 (match goal with
          | |- context [ensure ?k ?d v ≫= _] =>
              destruct (ensure_not_obj k d v Hv) as [E | E]; rewrite E; clear E;
              [rewrite bind_ok | reflexivity]
          end).
    now rewrite py_getitem_not_obj.
  - intros m ns Hns Hex. unfold validate_cfg.
    repeat first [rewrite ensure_obj | rewrite bind_ok].
    fold (with_defaults m). rewrite (py_getitem_obj _ _ _ Hns), bind_ok.
    unfold fix_nodes. cbn [py_iter]. rewrite bind_ok.
    now rewrite (fix_nodes_from_atom 0 ns Hex).
Qed.

(** *** What validation keeps *)

Lemma fill_subseteq (k : string) (d : json) (m : gmap string json) : m ⊆ fill k d m.
Proof.
  unfold fill. destruct (m !! k) eqn:E; [reflexivity|]. now apply insert_subseteq.
Qed.

Lemma complete_node_subseteq (i : nat) (m : gmap string json) :
  exists m', complete_node i (JObj m) = JObj m' ∧ m ⊆ m'.
Proof.
  eexists. split; [reflexivity|].
  repeat (etransitivity; [|apply fill_subseteq]). reflexivity.
Qed.

Lemma complete_edge_subseteq (m : gmap string json) :
  exists m', complete_edge (JObj m) = JObj m' ∧ m ⊆ m'.
Proof.
  eexists. split; [reflexivity|].
  repeat (etransitivity; [|apply fill_subseteq]). reflexivity.
Qed.

Lemma both_ends_complete_edge (e : json) :
  is_obj e = true -> both_ends (complete_edge e) = both_ends e.
Proof.
  destruct e as [| | | | |m]; try discriminate. intros _.
  unfold both_ends, complete_edge, field. look.
  now destruct (m !! "from"), (m !! "to").
Qed.

Lemma filter_fmap_complete_edge (es : list json) :
  forallb is_obj es = true ->
  List.filter both_ends (complete_edge <$> es)
  = complete_edge <$> List.filter both_ends es.
Proof.
  induction es as [|e es IH]; [reflexivity|]. cbn [forallb]. intros H.
  apply andb_true_iff in H as [He Hes].
  rewrite fmap_cons. cbn [List.filter]. rewrite (both_ends_complete_edge e He).
  destruct (both_ends e); [rewrite fmap_cons|]; now rewrite (IH Hes).
Qed.

Lemma complete_node_idem (i : nat) (a : gmap string json) :
  complete_node i (complete_node i (JObj a)) = complete_node i (JObj a).
Proof.
  cbn [complete_node]. f_equal.
  match goal with |- context [fill "id" ?d ?m] => set (m' := m) end.
  rewrite (fill_present "id" _ m') by (subst m'; look; eauto).
  rewrite (fill_present "type" _ m') by (subst m'; look; eauto).
  rewrite (fill_present "label" _ m') by (subst m'; look; eauto).
  rewrite (fill_present "next_nodes" _ m') by (subst m'; look; eauto).
  apply fill_present. subst m'; look; eauto.
Qed.

Lemma complete_edge_idem (e : json) : complete_edge (complete_edge e) = complete_edge e.
Proof.
  destruct e as [| | | | |a]; try reflexivity.
  cbn [complete_edge]. f_equal.
  match goal with |- context [fill "from" ?d ?m] => set (m' := m) end.
  rewrite (fill_present "from" _ m') by (subst m'; look; eauto).
  rewrite (fill_present "to" _ m') by (subst m'; look; eauto).
  apply fill_present. subst m'; look; eauto.
Qed.

Lemma imap_idem (f : nat -> json -> json) (l : list json) :
  forallb is_obj l = true ->
  (forall i a, f i (f i (JObj a)) = f i (JObj a)) ->
  imap f (imap f l) = imap f l.
Proof.
  revert f. induction l as [|n l IH]; intros f Hl Hf; [reflexivity|].
  cbn [forallb] in Hl. apply andb_true_iff in Hl as [Hn Hl].
  apply is_obj_inv in Hn as [a ->]. cbn [imap]. rewrite Hf. f_equal.
  apply (IH (f ∘ S) Hl). intros i x. apply Hf.
Qed.

Lemma filter_idem {A} (p : A -> bool) (l : list A) :
  List.filter p (List.filter p l) = List.filter p l.
Proof.
  induction l as [|x l IH]; [reflexivity|]. cbn.
  destruct (p x) eqn:E; [cbn; now rewrite E, IH | exact IH].
Qed.

Lemma forallb_filter {A} (p q : A -> bool) (l : list A) :
  forallb q l = true -> forallb q (List.filter p l) = true.
Proof.
  induction l as [|x l IH]; [reflexivity|]. cbn. intros H.
  apply andb_true_iff in H as [Hx Hl].
  destruct (p x); cbn; [rewrite Hx|]; now apply IH.
Qed.

Lemma optional_objs (m : gmap string json) :
  optional (is_list_of is_obj) m "nodes" = true ->
  optional (is_list_of is_obj) m "edges" = true ->
  exists ns es,
    with_defaults m !! "nodes" = Some (JArr ns) ∧ forallb is_obj ns = true
    ∧ record_list "nodes" (JObj m) = ns
    ∧ with_defaults m !! "edges" = Some (JArr es) ∧ forallb is_obj es = true
    ∧ record_list "edges" (JObj m) = es.
Proof.
  intros Hn He.
  destruct (optional_list _ _ _ Hn) as (ns & En & Hns).
  destruct (optional_list _ _ _ He) as (es & Ee & Hes).
  destruct (with_defaults_lookup m) as (Ln & Le & _).
  exists ns, es. rewrite Ln, Le, En, Ee. repeat split; auto.
  - unfold record_list. destruct (m !! "nodes"); cbn in En; [now subst | congruence].
  - unfold record_list. destruct (m !! "edges"); cbn in Ee; [now subst | congruence].
Qed.

Lemma validated_unfold (m : gmap string json) (ns es : list json) :
  with_defaults m !! "nodes" = Some (JArr ns) ->
  with_defaults m !! "edges" = Some (JArr es) ->
  validated m
  = JObj (<["edges" := JArr (List.filter both_ends (complete_edge <$> es))]>
            (<["nodes" := JArr (imap complete_node ns)]> (with_defaults m))).
Proof. intros Ln Le. unfold validated, record_list. now rewrite Ln, Le. Qed.

(** A second validation of what [validate_cfg] returned changes nothing. *)
Lemma validate_cfg_validated (m : gmap string json) :
  optional (is_list_of is_obj) m "nodes" = true ->
  optional (is_list_of is_obj) m "edges" = true ->
  validate_cfg (JObj m) = Ok (validated m)
  ∧ validate_cfg (validated m) = Ok (validated m).
Proof.
  intros Hn He.
  destruct (optional_objs m Hn He) as (ns & es & Ln & Hns & _ & Le & Hes & _).
  split; [now apply (validate_cfg_obj m ns es)|].
  rewrite (validated_unfold m ns es Ln Le).
  set (N := imap complete_node ns).
  set (E := List.filter both_ends (complete_edge <$> es)).
  set (m2 := <["edges" := JArr E]> (<["nodes" := JArr N]> (with_defaults m))).
  destruct (with_defaults_lookup m) as (_ & _ & Lc & Lp & Ld).
  assert (Hm2 : with_defaults m2 = m2).
  { apply with_defaults_fix; subst m2;
      repeat first [rewrite lookup_insert_eq
                   | rewrite lookup_insert_ne by discriminate]; eauto. }
  assert (Mn : m2 !! "nodes" = Some (JArr N)).
  { subst m2. rewrite lookup_insert_ne by discriminate. apply lookup_insert_eq. }
  assert (Me : m2 !! "edges" = Some (JArr E)) by (subst m2; apply lookup_insert_eq).
  assert (HN : forallb is_obj N = true).
  { subst N. apply (forallb_imap is_obj); [assumption|].
    intros j v Hv. apply is_obj_inv in Hv as [a ->]. reflexivity. }
  assert (HE : forallb is_obj E = true).
  { subst E. apply forallb_filter. now apply complete_edge_is_obj. }
  rewrite (validate_cfg_obj m2 N E) by (rewrite ?Hm2; assumption).
  rewrite (validated_unfold m2 N E) by (rewrite Hm2; assumption).
  rewrite Hm2. do 2 f_equal.
  assert (EN : imap complete_node N = N).
  { subst N. apply imap_idem; [assumption|]. intros i a. apply complete_node_idem. }
  assert (EE : List.filter both_ends (complete_edge <$> E) = E).
  { subst E.
    assert (H : complete_edge <$> List.filter both_ends (complete_edge <$> es)
                = List.filter both_ends (complete_edge <$> es)).
    { rewrite (filter_fmap_complete_edge es Hes), <- list_fmap_compose.
      apply list_fmap_ext. intros ? e _. apply complete_edge_idem. }
    rewrite H. apply filter_idem. }
  rewrite EN, EE. rewrite (insert_id m2 "nodes" (JArr N) Mn).
  apply (insert_id m2 "edges" (JArr E) Me).
Qed.

(** X10. Validation settles.  On a dict whose nodes and edges, where
    present, are lists of dicts (whatever else it holds) [validate_cfg]
    returns a record on which a second validation changes nothing: this is
    why the record that a producer stores can be validated again on every
    later hit. *)
Theorem validate_cfg_settles (m : gmap string json) :
  optional (is_list_of is_obj) m "nodes" = true ->
  optional (is_list_of is_obj) m "edges" = true ->
  exists r, validate_cfg (JObj m) = Ok r ∧ validate_cfg r = Ok r.
Proof.
  intros Hn He. exists (validated m). now apply validate_cfg_validated.
Qed.

Lemma validate_cfg_settles_witness :
  exists r, validate_cfg (JObj {[ "edges" := JArr [JObj ∅]; "source" := JStr "model" ]}) = Ok r
            ∧ validate_cfg r = Ok r.
Proof.
  apply (validate_cfg_settles
           ({[ "edges" := JArr [JObj ∅]; "source" := JStr "model" ]} : gmap string json));
    reflexivity.
Defined.

Lemma imap_grows (f : nat -> json -> json) (l : list json) :
  forallb is_obj l = true ->
  (forall i a, exists b, f i (JObj a) = JObj b ∧ a ⊆ b) ->
  Forall2 (fun n n' => exists a b, n = JObj a ∧ n' = JObj b ∧ a ⊆ b) l (imap f l).
Proof.
  revert f. induction l as [|n l IH]; intros f Hl Hf; [constructor|].
  cbn [forallb] in Hl. apply andb_true_iff in Hl as [Hn Hl].
  apply is_obj_inv in Hn as [a ->]. cbn [imap]. constructor.
  - destruct (Hf 0 a) as (b & E & Hab). exists a, b. auto.
  - apply IH; [assumption|]. intros i x. apply Hf.
Qed.

(** X11. Validation only adds.  On a dict whose nodes and edges, where
    present, are lists of dicts, [validate_cfg] returns a dict that has every
    field of the input other than the two lists with the value it had (the
    metrics that were given, and any field outside the schema); it returns as
    many nodes as it was given, each with all the fields it had, unchanged;
    and its edges are, in order, the edges of the input whose [from] and [to]
    are both present and truthy, each with all the fields it had. *)
Theorem validate_cfg_only_adds (m : gmap string json) :
  optional (is_list_of is_obj) m "nodes" = true ->
  optional (is_list_of is_obj) m "edges" = true ->
  exists m',
    validate_cfg (JObj m) = Ok (JObj m')
    ∧ (forall k, k <> "nodes" -> k <> "edges" -> is_Some (m !! k) -> m' !! k = m !! k)
    ∧ Forall2 (fun n n' => exists a b, n = JObj a ∧ n' = JObj b ∧ a ⊆ b)
              (record_list "nodes" (JObj m)) (record_list "nodes" (JObj m'))
    ∧ Forall2 (fun e e' => exists a b, e = JObj a ∧ e' = JObj b ∧ a ⊆ b)
              (List.filter both_ends (record_list "edges" (JObj m)))
              (record_list "edges" (JObj m')).
Proof.
  intros Hn He.
  destruct (optional_objs m Hn He) as (ns & es & Ln & Hns & Rn & Le & Hes & Re).
  assert (Vn : record_list "nodes" (JObj (with_defaults m)) = ns)
    by (unfold record_list; now rewrite Ln).
  assert (Ve : record_list "edges" (JObj (with_defaults m)) = es)
    by (unfold record_list; now rewrite Le).
  exists (<["edges" := JArr (List.filter both_ends (complete_edge <$> es))]>
            (<["nodes" := JArr (imap complete_node ns)]> (with_defaults m))).
  split.
  { rewrite (validate_cfg_obj m ns es Ln Le Hns Hes). unfold validated.
    cbv zeta. now rewrite Vn, Ve. }
  assert (Wn : forall x y, record_list "nodes"
                 (JObj (<["edges" := y]> (<["nodes" := JArr x]> (with_defaults m)))) = x).
  { intros x y. unfold record_list. rewrite lookup_insert_ne by discriminate.
    now rewrite lookup_insert_eq. }
  assert (We : forall x y, record_list "edges"
                 (JObj (<["edges" := JArr y]> (<["nodes" := x]> (with_defaults m)))) = y).
  { intros x y. unfold record_list. now rewrite lookup_insert_eq. }
  rewrite Wn, We.
  rewrite Rn, Re. split; [|split].
  - intros k Hk1 Hk2 [v Hv]. rewrite !lookup_insert_ne by congruence.
    rewrite Hv. apply (lookup_weaken m); [exact Hv|].
    unfold with_defaults. repeat (etransitivity; [|apply fill_subseteq]). reflexivity.
  - now apply imap_grows, complete_node_subseteq.
  - rewrite (filter_fmap_complete_edge es Hes).
    assert (Hf : forallb is_obj (List.filter both_ends es) = true).
    { clear -Hes. induction es as [|e es IH]; [reflexivity|]. cbn in *.
      apply andb_true_iff in Hes as [He Hes].
      destruct (both_ends e); cbn; [rewrite He|]; now apply IH. }
    induction (List.filter both_ends es) as [|e l IH]; [constructor|].
    cbn [forallb] in Hf. apply andb_true_iff in Hf as [He' Hl].
    apply is_obj_inv in He' as [a ->]. rewrite fmap_cons. constructor; [|now apply IH].
    destruct (complete_edge_subseteq a) as (b & E & Hab). exists a, b. auto.
Qed.

Lemma validate_cfg_only_adds_witness :
  exists m',
    validate_cfg (JObj {[ "complexity" := JInt 4; "source" := JStr "model" ]}) = Ok (JObj m')
    ∧ m' !! "complexity" = Some (JInt 4)
    ∧ m' !! "source" = Some (JStr "model").
Proof.
  destruct (validate_cfg_only_adds
              ({[ "complexity" := JInt 4; "source" := JStr "model" ]} : gmap string json))
    as (m' & Hv & Hk & _); [reflexivity | reflexivity |].
  exists m'. split; [exact Hv|]. split.
  - rewrite (Hk "complexity"); [reflexivity | discriminate | discriminate | now eexists].
  - rewrite (Hk "source"); [reflexivity | discriminate | discriminate | now eexists].
Defined.

(** ** The producers and the cache *)

Lemma bind_raises_only {A B} (P : exn -> bool) (m : result A) (f : A -> result B) :
  raises_only P m = true -> (forall a, raises_only P (f a) = true) ->
  raises_only P (m ≫= f) = true.
Proof. destruct m as [a|e]; intros Hm Hf; [apply Hf | exact Hm]. Qed.

Lemma py_in_raises (k : string) (v : json) : raises_only value_error (py_in k v) = true.
Proof. now destruct v. Qed.

Lemma py_setitem_raises (k : string) (d v : json) :
  raises_only value_error (py_setitem k d v) = true.
Proof. now destruct v. Qed.

Lemma py_getitem_raises (k : string) (v : json) :
  raises_only value_error (py_getitem k v) = true.
Proof. destruct v as [| | | | |m]; try reflexivity. cbn. now destruct (m !! k). Qed.

Lemma py_get_raises (k : string) (v : json) :
  raises_only value_error (py_get k v) = true.
Proof. now destruct v. Qed.

Lemma py_iter_raises (v : json) : raises_only value_error (py_iter v) = true.
Proof. now destruct v. Qed.

Lemma ensure_raises (k : string) (d v : json) :
  raises_only value_error (ensure k d v) = true.
Proof.
  unfold ensure. apply bind_raises_only; [apply py_in_raises|].
  intros [|]; [reflexivity | apply py_setitem_raises].
Qed.

Lemma fix_node_raises (i : nat) (v : json) :
  raises_only value_error (fix_node i v) = true.
Proof. unfold fix_node. repeat (apply bind_raises_only; [apply ensure_raises | intros]).
  apply ensure_raises. Qed.

Lemma fix_nodes_from_raises (i : nat) (l : list json) :
  raises_only value_error (fix_nodes_from i l) = true.
Proof.
  revert i. induction l as [|v l IH]; intros i; [reflexivity|]. cbn [fix_nodes_from].
  apply bind_raises_only; [apply fix_node_raises | intros].
  apply bind_raises_only; [apply IH | reflexivity].
Qed.

Lemma fix_edge_raises (v : json) : raises_only value_error (fix_edge v) = true.
Proof. unfold fix_edge. repeat (apply bind_raises_only; [apply ensure_raises | intros]).
  apply ensure_raises. Qed.

Lemma fix_edges_raises (l : list json) : raises_only value_error (fix_edges l) = true.
Proof.
  induction l as [|v l IH]; [reflexivity|]. cbn [fix_edges].
  apply bind_raises_only; [apply fix_edge_raises | intros].
  apply bind_raises_only; [apply IH | reflexivity].
Qed.

Lemma keep_edges_raises (l : list json) : raises_only value_error (keep_edges l) = true.
Proof.
  induction l as [|v l IH]; [reflexivity|]. cbn [keep_edges].
  apply bind_raises_only.
  - unfold edge_kept. apply bind_raises_only; [apply py_get_raises | intros f].
    destruct (truthy f); [|reflexivity].
    apply bind_raises_only; [apply py_get_raises | reflexivity].
  - intros b. apply bind_raises_only; [apply IH | reflexivity].
Qed.

Lemma validate_cfg_raises (v : json) : raises_only value_error (validate_cfg v) = true.
Proof.
  unfold validate_cfg.
  do 5 (apply bind_raises_only; [apply ensure_raises | intros]).
  apply bind_raises_only; [apply py_getitem_raises | intros nodes].
  apply bind_raises_only.
  { unfold fix_nodes. apply bind_raises_only; [apply py_iter_raises | intros].
    apply bind_raises_only; [apply fix_nodes_from_raises | intros].
    now destruct nodes. }
  intros. apply bind_raises_only; [apply py_setitem_raises | intros].
  apply bind_raises_only; [apply py_getitem_raises | intros].
  apply bind_raises_only; [apply py_iter_raises | intros].
  apply bind_raises_only; [apply fix_edges_raises | intros].
  apply bind_raises_only; [apply keep_edges_raises | intros].
  apply py_setitem_raises.
Qed.

Lemma make_nodes_raises (l : list json) : raises_only value_error (make_nodes l) = true.
Proof.
  induction l as [|v l IH]; [reflexivity|]. cbn [make_nodes].
  apply bind_raises_only.
  - unfold make_node. destruct v as [| | | | |m]; try reflexivity.
    destruct (bool_decide _); [|reflexivity].
    destruct (m !! "id"), (m !! "type"), (m !! "label"), (m !! "next_nodes"); reflexivity.
  - intros. apply bind_raises_only; [apply IH | reflexivity].
Qed.

Lemma to_entity_raises (r : json) : raises_only value_error (to_entity r) = true.
Proof.
  unfold to_entity.
  apply bind_raises_only; [apply py_getitem_raises | intros].
  apply bind_raises_only; [apply py_iter_raises | intros].
  apply bind_raises_only; [apply make_nodes_raises | intros].
  do 4 (apply bind_raises_only; [apply py_getitem_raises | intros]).
  reflexivity.
Qed.

Lemma from_cache_raises (r : json) : raises_only value_error (from_cache r) = true.
Proof.
  unfold from_cache. apply bind_raises_only; [apply validate_cfg_raises | intros].
  apply to_entity_raises.
Qed.

Lemma raises_only_inv {A} (r : result A) (e : exn) :
  raises_only value_error r = true -> r = Raise e -> e <> JSONDecodeError.
Proof. intros H ->. cbn in H. intros ->. discriminate. Qed.

Lemma from_response_outcome (ttl : Z) (parse : string -> result json)
    (now_expiry now_created : Z) (ct key marker text : string) (t : table) :
  producer_outcome ttl now_expiry now_created ct key t
    (from_response ttl parse now_expiry now_created ct key marker text t).
Proof.
  unfold producer_outcome, from_response.
  destruct (parse text) as [raw|e] eqn:Hp.
  - destruct (validate_cfg raw) as [rec|e] eqn:Hv.
    + destruct (to_entity rec) as [cfg|e] eqn:He.
      * split; [discriminate|]. right. exists raw, rec, cfg. auto.
      * split; [|now left]. cbn. intros e' [= <-].
        eapply raises_only_inv; [apply (to_entity_raises rec) | exact He].
    + split; [|now left]. cbn. intros e' [= <-].
      eapply raises_only_inv; [apply (validate_cfg_raises raw) | exact Hv].
  - destruct e; (split; [cbn; try discriminate; intros e' [= <-]; discriminate | now left]).
Qed.

Lemma hit_outcome (ttl now_expiry now_created : Z) (ct key : string) (i : nat)
    (cached : json) (t : table) :
  producer_outcome ttl now_expiry now_created ct key t
    (from_cache cached, bump i <$> t).
Proof.
  split; cbn [fst snd].
  - intros e He. eapply raises_only_inv; [apply (from_cache_raises cached) | exact He].
  - left. apply fmap_bump_payload.
Qed.

Lemma is_none_stored (v : json) : v <> JNull -> is_none (Some v) = false.
Proof. now destruct v. Qed.

Lemma found_not_null (p : row -> bool) (t : table) (r : row) :
  Forall (fun r => response r <> JNull) t -> List.find p t = Some r ->
  is_none (Some (response r)) = false.
Proof.
  intros Hall Hf. apply is_none_stored. rewrite Forall_forall in Hall. apply Hall.
  apply list_elem_of_In. now apply List.find_some in Hf.
Qed.

(** X12. What a producer leaves in the cache.  On a table that holds no
    null document (the producers store none, and their callers take one that
    is read back for a miss), whatever the input, the collaborator and the
    decoder, [pseudocode_to_cfg] and [flowchart_to_cfg] never raise a
    decoding error, and either they store nothing (the rows are what they
    were, hit counters apart) or they store under the key of the input the
    validated record from which the graph they return was assembled.  So a
    call that fails, and a call that answers with the fallback graph, leave
    no entry behind. *)
Theorem producers_store_only_what_they_return
    (sha256_hex : string -> string) (ttl : Z) (parse : string -> result json)
    (generate_content : string -> option string)
    (image : Type) (open_image : string -> option image)
    (generate_content_vision : string -> image -> option string)
    (P_PROMPT F_PROMPT : string)
    (now_get now_expiry now_created : Z) (input : string) (t : table) :
  Forall (fun r => response r <> JNull) t ->
  producer_outcome ttl now_expiry now_created "pseudocode_to_cfg"
    (generate_cache_key sha256_hex "pseudocode_to_cfg" [normalize_code input]) t
    (pseudocode_to_cfg sha256_hex ttl parse generate_content P_PROMPT
       now_get now_expiry now_created input t)
  ∧ producer_outcome ttl now_expiry now_created "flowchart_to_cfg"
      (generate_cache_key sha256_hex "flowchart_to_cfg" [input]) t
      (flowchart_to_cfg sha256_hex ttl parse image open_image generate_content_vision
         F_PROMPT now_get now_expiry now_created input t).
Proof.
  intros Hnull. split.
  - unfold pseudocode_to_cfg, get_cached_response. cbv zeta.
    destruct (List.find _ t) as [r|] eqn:Hf.
    + rewrite (found_not_null _ t r Hnull Hf). apply hit_outcome.
    + cbn [is_none]. destruct (generate_content _) as [text|].
      * apply from_response_outcome.
      * split; [cbn; intros e [= <-]; discriminate | now left].
  - unfold flowchart_to_cfg, get_cached_response. cbv zeta.
    destruct (List.find _ t) as [r|] eqn:Hf.
    + rewrite (found_not_null _ t r Hnull Hf). apply hit_outcome.
    + cbn [is_none]. destruct (open_image _) as [img|].
      * destruct (generate_content_vision _ _) as [text|].
        -- apply from_response_outcome.
        -- split; [cbn; intros e [= <-]; discriminate | now left].
      * split; [cbn; intros e [= <-]; discriminate | now left].
Qed.

Lemma producers_store_only_what_they_return_witness :
  producer_outcome 24 0 0 "pseudocode_to_cfg"
    (generate_cache_key (fun s => s) "pseudocode_to_cfg" [normalize_code "x = 1"]) []
    (pseudocode_to_cfg (fun s => s) 24 (fun _ => Raise JSONDecodeError)
       (fun _ => Some "no json") "P" 0 0 0 "x = 1" []).
Proof.
  exact (proj1 (producers_store_only_what_they_return (fun s => s) 24
                  (fun _ => Raise JSONDecodeError) (fun _ => Some "no json")
                  unit (fun _ => None) (fun _ _ => None) "P" "F" 0 0 0 "x = 1" []
                  (Forall_nil_2 _))).
Defined.

Lemma get_miss (now : Z) (ct h : string) (t : table) :
  fst (get_cached_response now ct h t) = None ->
  get_cached_response now ct h t = (None, t).
Proof.
  unfold get_cached_response. now destruct (List.find _ t).
Qed.

(** A decodable response is stored, and a later lookup before the expiry
    finds it and assembles the same graph. *)
Lemma from_response_then_hit (ttl : Z) (parse : string -> result json)
    (now_expiry now_created now : Z) (ct key marker text : string) (t : table)
    (m : gmap string json) (cfg : CFG) :
  parse text = Ok (JObj m) ->
  optional (is_list_of is_obj) m "nodes" = true ->
  optional (is_list_of is_obj) m "edges" = true ->
  to_entity (validated m) = Ok cfg ->
  representable (now_expiry + ttl * 3600000000) = true ->
  (now < now_expiry + ttl * 3600000000)%Z ->
  exists t1 t2,
    from_response ttl parse now_expiry now_created ct key marker text t = (Ok cfg, t1)
    ∧ get_cached_response now ct key t1 = (Some (validated m), t2)
    ∧ from_cache (validated m) = Ok cfg
    ∧ hits_of ct key t2 = Some 1.
Proof.
  intros Hp Hn He Hc Hrep Hlive.
  destruct (validate_cfg_validated m Hn He) as [Hv Hvv].
  eexists _, _. split; [|split; [|split]].
  - unfold from_response. rewrite Hp, Hv, Hc. reflexivity.
  - rewrite set_cached_response_stores by exact Hrep.
    apply (get_on_stored ttl); exact Hlive.
  - unfold from_cache. now rewrite Hvv, bind_ok.
  - apply hits_of_stored.
Qed.

(** X13. The cache in front of [pseudocode_to_cfg].  When a call misses
    the cache, the collaborator answers with a document that decodes to a
    dict from which a graph is assembled, and the instant of expiry is one
    that a [datetime] holds, then any later call before that instant with a
    pseudocode that has the same [normalize_code], whatever the collaborator
    and the decoder would answer then, returns that same graph, and counts
    one hit. *)
Theorem pseudocode_to_cfg_memoized
    (sha256_hex : string -> string) (ttl : Z)
    (parse parse' : string -> result json)
    (generate_content generate_content' : string -> option string)
    (P_PROMPT P_PROMPT' : string)
    (now_get now_expiry now_created now_get' now_expiry' now_created' : Z)
    (pseudocode pseudocode' text : string) (t : table)
    (m : gmap string json) (cfg : CFG) :
  let key := generate_cache_key sha256_hex "pseudocode_to_cfg" [normalize_code pseudocode] in
  fst (get_cached_response now_get "pseudocode_to_cfg" key t) = None ->
  generate_content (P_PROMPT ++ nl ++ nl ++ "Pseudocode:" ++ nl ++ pseudocode) = Some text ->
  parse text = Ok (JObj m) ->
  optional (is_list_of is_obj) m "nodes" = true ->
  optional (is_list_of is_obj) m "edges" = true ->
  to_entity (validated m) = Ok cfg ->
  normalize_code pseudocode' = normalize_code pseudocode ->
  representable (now_expiry + ttl * 3600000000) = true ->
  (now_get' < now_expiry + ttl * 3600000000)%Z ->
  exists t1 t2,
    pseudocode_to_cfg sha256_hex ttl parse generate_content P_PROMPT
      now_get now_expiry now_created pseudocode t = (Ok cfg, t1)
    ∧ pseudocode_to_cfg sha256_hex ttl parse' generate_content' P_PROMPT'
        now_get' now_expiry' now_created' pseudocode' t1 = (Ok cfg, t2)
    ∧ hits_of "pseudocode_to_cfg" key t2 = Some 1.
Proof.
  intros key Hmiss Hg Hp Hn He Hc Hnorm Hrep Hlive.
  destruct (from_response_then_hit ttl parse now_expiry now_created now_get'
              "pseudocode_to_cfg" key "Error parsing pseudocode" text t m cfg
              Hp Hn He Hc Hrep Hlive) as (t1 & t2 & H1 & H2 & H3 & H4).
  exists t1, t2. split; [|split].
  - unfold pseudocode_to_cfg. cbv zeta. fold key.
    rewrite (get_miss _ _ _ _ Hmiss). cbn [is_none]. rewrite Hg. exact H1.
  - unfold pseudocode_to_cfg. cbv zeta. rewrite Hnorm. fold key.
    rewrite H2. change (is_none (Some (validated m))) with false.
    change (default JNull (Some (validated m))) with (validated m). now rewrite H3.
  - exact H4.
Qed.

Lemma pseudocode_to_cfg_memoized_witness :
  exists t1 t2,
    pseudocode_to_cfg (fun s => s) 24 (fun _ => Ok (JObj ∅)) (fun _ => Some "{}") "P"
      0 0 0 "x = 1;" [] = (Ok (mkCFG [] (JArr []) (JInt 1) (JInt 1) (JInt 0)), t1)
    ∧ pseudocode_to_cfg (fun s => s) 24 (fun _ => Raise JSONDecodeError) (fun _ => None) "Q"
        5 5 5 "X  =  1" t1 = (Ok (mkCFG [] (JArr []) (JInt 1) (JInt 1) (JInt 0)), t2)
    ∧ hits_of "pseudocode_to_cfg"
        (generate_cache_key (fun s => s) "pseudocode_to_cfg" [normalize_code "x = 1;"]) t2
      = Some 1.
Proof.
  apply (pseudocode_to_cfg_memoized (fun s => s) 24 (fun _ => Ok (JObj ∅))
           (fun _ => Raise JSONDecodeError) (fun _ => Some "{}") (fun _ => None)
           "P" "Q" 0 0 0 5 5 5 "x = 1;" "X  =  1" "{}" [] ∅
           (mkCFG [] (JArr []) (JInt 1) (JInt 1) (JInt 0)));
    try reflexivity.
Defined.

(** X14. The cache in front of [flowchart_to_cfg].  When a call misses the
    cache, the picture can be opened, the collaborator answers with a
    document that decodes to a dict from which a graph is assembled, and the
    instant of expiry is one that a [datetime] holds, then any later call
    before that instant with the same text returns that same graph without
    opening the picture: it does so even when the picture could no longer be
    opened and the collaborator would not answer. *)
Theorem flowchart_to_cfg_memoized
    (sha256_hex : string -> string) (ttl : Z)
    (parse parse' : string -> result json)
    (image : Type) (open_image open_image' : string -> option image)
    (generate_content_vision generate_content_vision' : string -> image -> option string)
    (F_PROMPT F_PROMPT' : string)
    (now_get now_expiry now_created now_get' now_expiry' now_created' : Z)
    (base64_image text : string) (img : image) (t : table)
    (m : gmap string json) (cfg : CFG) :
  let key := generate_cache_key sha256_hex "flowchart_to_cfg" [base64_image] in
  fst (get_cached_response now_get "flowchart_to_cfg" key t) = None ->
  open_image (image_data base64_image) = Some img ->
  generate_content_vision F_PROMPT img = Some text ->
  parse text = Ok (JObj m) ->
  optional (is_list_of is_obj) m "nodes" = true ->
  optional (is_list_of is_obj) m "edges" = true ->
  to_entity (validated m) = Ok cfg ->
  representable (now_expiry + ttl * 3600000000) = true ->
  (now_get' < now_expiry + ttl * 3600000000)%Z ->
  exists t1 t2,
    flowchart_to_cfg sha256_hex ttl parse image open_image generate_content_vision
      F_PROMPT now_get now_expiry now_created base64_image t = (Ok cfg, t1)
    ∧ flowchart_to_cfg sha256_hex ttl parse' image open_image' generate_content_vision'
        F_PROMPT' now_get' now_expiry' now_created' base64_image t1 = (Ok cfg, t2)
    ∧ hits_of "flowchart_to_cfg" key t2 = Some 1.
Proof.
  intros key Hmiss Ho Hg Hp Hn He Hc Hrep Hlive.
  destruct (from_response_then_hit ttl parse now_expiry now_created now_get'
              "flowchart_to_cfg" key "Error parsing flowchart" text t m cfg
              Hp Hn He Hc Hrep Hlive) as (t1 & t2 & H1 & H2 & H3 & H4).
  exists t1, t2. split; [|split].
  - unfold flowchart_to_cfg. cbv zeta. fold key.
    rewrite (get_miss _ _ _ _ Hmiss). cbn [is_none]. rewrite Ho, Hg. exact H1.
  - unfold flowchart_to_cfg. cbv zeta. fold key. rewrite H2.
    change (is_none (Some (validated m))) with false.
    change (default JNull (Some (validated m))) with (validated m). now rewrite H3.
  - exact H4.
Qed.

Lemma flowchart_to_cfg_memoized_witness :
  exists t1 t2,
    flowchart_to_cfg (fun s => s) 24 (fun _ => Ok (JObj ∅)) unit
      (fun _ => Some tt) (fun _ _ => Some "{}") "F" 0 0 0 "data:image/png;base64,AAAA" []
    = (Ok (mkCFG [] (JArr []) (JInt 1) (JInt 1) (JInt 0)), t1)
    ∧ flowchart_to_cfg (fun s => s) 24 (fun _ => Raise JSONDecodeError) unit
        (fun _ => None) (fun _ _ => None) "G" 5 5 5 "data:image/png;base64,AAAA" t1
      = (Ok (mkCFG [] (JArr []) (JInt 1) (JInt 1) (JInt 0)), t2)
    ∧ hits_of "flowchart_to_cfg"
        (generate_cache_key (fun s => s) "flowchart_to_cfg" ["data:image/png;base64,AAAA"]) t2
      = Some 1.
Proof.
  apply (flowchart_to_cfg_memoized (fun s => s) 24 (fun _ => Ok (JObj ∅))
           (fun _ => Raise JSONDecodeError) unit (fun _ => Some tt) (fun _ => None)
           (fun _ _ => Some "{}") (fun _ _ => None)
           "F" "G" 0 0 0 5 5 5 "data:image/png;base64,AAAA" "{}" tt [] ∅
           (mkCFG [] (JArr []) (JInt 1) (JInt 1) (JInt 0)));
    try reflexivity.
Defined.

(** ** The text of a picture *)

Lemma append_cons (c : ascii) (a b : string) : String c a ++ b = String c (a ++ b).
Proof. reflexivity. Qed.

Lemma after_comma_free (s : string) : comma_free s = true -> after_comma s = None.
Proof.
  induction s as [|c s IH]; [reflexivity|]. cbn. intros H.
  apply andb_true_iff in H as [Hc Hs]. apply negb_true_iff in Hc. now rewrite Hc, IH.
Qed.

Lemma after_comma_app (p r : string) :
  comma_free p = true -> after_comma (p ++ String "," r) = Some r.
Proof.
  induction p as [|c p IH]; [reflexivity|]. cbn [comma_free]. intros H.
  apply andb_true_iff in H as [Hc Hp]. apply negb_true_iff in Hc.
  rewrite append_cons. cbn [after_comma]. now rewrite Hc, IH.
Qed.

Lemma until_comma_free (d : string) : comma_free d = true -> until_comma d = d.
Proof.
  induction d as [|c d IH]; [reflexivity|]. cbn. intros H.
  apply andb_true_iff in H as [Hc Hd]. apply negb_true_iff in Hc. now rewrite Hc, IH.
Qed.

Lemma until_comma_app (d r : string) :
  comma_free d = true -> until_comma (d ++ String "," r) = d.
Proof.
  induction d as [|c d IH]; [reflexivity|]. cbn [comma_free]. intros H.
  apply andb_true_iff in H as [Hc Hd]. apply negb_true_iff in Hc.
  rewrite append_cons. cbn [until_comma]. now rewrite Hc, IH.
Qed.

Lemma until_comma_is_free (s : string) : comma_free (until_comma s) = true.
Proof.
  induction s as [|c s IH]; [reflexivity|]. cbn.
  destruct (Ascii.eqb c ",") eqn:E; [reflexivity|]. cbn. now rewrite E, IH.
Qed.

Lemma after_comma_none (s : string) : after_comma s = None -> comma_free s = true.
Proof.
  induction s as [|c s IH]; [reflexivity|]. cbn.
  destruct (Ascii.eqb c ","); [discriminate|]. exact IH.
Qed.

(** X15. The text that [flowchart_to_cfg] decodes as base64.  It never
    holds a comma.  A text without a comma is taken whole; of a data URL,
    a prefix and a payload separated by a comma, the payload is taken; and
    when more commas follow, only what lies between the first and the second
    comma is taken, the rest is dropped. *)
Theorem image_data_is_the_payload :
  (forall s, comma_free (image_data s) = true)
  ∧ (forall p d rest,
        comma_free p = true -> comma_free d = true ->
        image_data p = p
        ∧ image_data (p ++ "," ++ d) = d
        ∧ image_data (p ++ "," ++ d ++ "," ++ rest) = d).
Proof.
  split.
  - intros s. unfold image_data. destruct (after_comma s) as [r|] eqn:E.
    + apply until_comma_is_free.
    + now apply after_comma_none.
  - intros p d rest Hp Hd. unfold image_data. repeat split.
    + now rewrite (after_comma_free p Hp).
    + change ("," ++ d) with (String "," d).
      rewrite (after_comma_app p d Hp). now apply until_comma_free.
    + change ("," ++ d ++ "," ++ rest) with (String "," (d ++ String "," rest)).
      rewrite (after_comma_app p _ Hp). now apply until_comma_app.
Qed.

(** ** The analyzers and the cache *)

Lemma ask_and_store_unfold (ttl : Z) (parse : string -> result json)
    (generate_content : string -> option string)
    (now_expiry now_created : Z) (ct key prompt text : string) (res : json) (t : table) :
  generate_content prompt = Some text -> parse text = Ok res ->
  ask_and_store ttl parse generate_content now_expiry now_created ct key prompt t
  = (Ok res, set_cached_response ttl now_expiry now_created ct key res t).
Proof. intros Hg Hp. unfold ask_and_store. now rewrite Hg, Hp. Qed.

(** X16. The cache in front of [analyze_problem] and [compare_cfgs].  When
    a call misses the cache and the collaborator's answer decodes to a
    document other than null, that document is returned as it is, and,
    where the instant of expiry is one that a [datetime] holds, any later
    call before that instant with the same arguments returns the same
    document, whatever the collaborator and the decoder would answer then. *)
Theorem analyzers_memoized
    (sha256_hex : string -> string) (ttl : Z)
    (parse parse' : string -> result json)
    (generate_content generate_content' : string -> option string)
    (dumps_sorted dumps_indent : json -> string)
    (C_PROMPT A_PROMPT : string)
    (now_get now_expiry now_created now_get' now_expiry' now_created' : Z)
    (t : table) (res : json) :
  representable (now_expiry + ttl * 3600000000) = true ->
  (now_get' < now_expiry + ttl * 3600000000)%Z ->
  res <> JNull ->
  (forall problem_statement text,
      fst (get_cached_response now_get "analyze_problem"
             (generate_cache_key sha256_hex "analyze_problem" [problem_statement]) t) = None ->
      generate_content (A_PROMPT ++ nl ++ nl ++ "Problem Statement:" ++ nl
                        ++ problem_statement) = Some text ->
      parse text = Ok res ->
      exists t1,
        analyze_problem sha256_hex ttl parse generate_content A_PROMPT
          now_get now_expiry now_created problem_statement t = (Ok res, t1)
        ∧ fst (analyze_problem sha256_hex ttl parse' generate_content' A_PROMPT
                 now_get' now_expiry' now_created' problem_statement t1) = Ok res)
  ∧ (forall cfg1 cfg2 problem_analysis m1 m2 text,
        metrics_of cfg1 = Ok m1 -> metrics_of cfg2 = Ok m2 ->
        fst (get_cached_response now_get "compare_cfgs"
               (compare_key sha256_hex dumps_sorted cfg1 cfg2 problem_analysis) t) = None ->
        generate_content
          (compare_prompt dumps_indent C_PROMPT (cfg_to_dict cfg1) (cfg_to_dict cfg2)
             problem_analysis (JObj {[ "cfg1" := m1; "cfg2" := m2 ]})) = Some text ->
        parse text = Ok res ->
        exists t1,
          compare_cfgs sha256_hex ttl parse generate_content dumps_sorted dumps_indent
            C_PROMPT now_get now_expiry now_created cfg1 cfg2 problem_analysis t
          = (Ok res, t1)
          ∧ fst (compare_cfgs sha256_hex ttl parse' generate_content' dumps_sorted
                   dumps_indent C_PROMPT now_get' now_expiry' now_created'
                   cfg1 cfg2 problem_analysis t1) = Ok res).
Proof.
  intros Hrep Hlive Hres. split.
  - intros ps text Hmiss Hg Hp. eexists. split.
    + unfold analyze_problem. cbv zeta. rewrite (get_miss _ _ _ _ Hmiss).
      cbn [is_none].
      apply (ask_and_store_unfold ttl parse generate_content _ _ _ _ _ text res t Hg Hp).
    + unfold analyze_problem. cbv zeta.
      rewrite set_cached_response_stores by exact Hrep.
      rewrite (get_on_stored ttl now_expiry now_created now_get' _ _ res t 0 Hlive).
      now rewrite (is_none_stored res Hres).
  - intros cfg1 cfg2 pa m1 m2 text H1 H2 Hmiss Hg Hp. eexists. split.
    + unfold compare_cfgs. rewrite H1, H2, !bind_ok. cbv zeta.
      rewrite (get_miss _ _ _ _ Hmiss). cbn [is_none].
      apply (ask_and_store_unfold ttl parse generate_content _ _ _ _ _ text res t Hg Hp).
    + unfold compare_cfgs. rewrite H1, H2, !bind_ok. cbv zeta.
      rewrite set_cached_response_stores by exact Hrep.
      rewrite (get_on_stored ttl now_expiry now_created now_get' _ _ res t 0 Hlive).
      now rewrite (is_none_stored res Hres).
Qed.

Lemma analyzers_memoized_witness :
  exists t1,
    analyze_problem (fun s => s) 24 (fun _ => Ok (JStr "sorting")) (fun _ => Some "x") "A"
      0 0 0 "sort a list" [] = (Ok (JStr "sorting"), t1)
    ∧ fst (analyze_problem (fun s => s) 24 (fun _ => Raise JSONDecodeError) (fun _ => None)
             "A" 5 5 5 "sort a list" t1) = Ok (JStr "sorting").
Proof.
  destruct (analyzers_memoized (fun s => s) 24 (fun _ => Ok (JStr "sorting"))
              (fun _ => Raise JSONDecodeError) (fun _ => Some "x") (fun _ => None)
              (fun _ => "") (fun _ => "") "C" "A" 0 0 0 5 5 5 [] (JStr "sorting"))
    as [H _]; [reflexivity | reflexivity | discriminate |].
  apply (H "sort a list" "x"); reflexivity.
Defined.


(** ** The shape of a normalized text *)

Module NormalForm.

Import Normalizer.
Local Open Scope char_scope.
Local Open Scope list_scope.

Ltac by_cases_on_char c :=
  destruct c as [[] [] [] [] [] [] [] []]; vm_compute; repeat split; congruence.

Lemma lower_char_idem (c : ascii) : lower_char (lower_char c) = lower_char c.
Proof. by_cases_on_char c. Qed.

Lemma lower_char_space (c : ascii) :
  is_space (lower_char c) = is_space c ∧ (lower_char c = " " -> c = " ")
  ∧ (lower_char c = ";" -> c = ";").
Proof. by_cases_on_char c. Qed.

Lemma lower_space : lower_char " " = " ".
Proof. reflexivity. Qed.

(** What [collapse_ws] returns: spaces for whitespace. *)
Lemma collapse_ws_chars (st : bool) (s : text) (c : ascii) :
  c ∈ collapse_ws st s -> (c = " " ∨ (c ∈ s ∧ is_space c = false)).
Proof.
  revert st. induction s as [|x r IH]; intros st; cbn [collapse_ws].
  - intros H. inversion H.
  - destruct (is_space x) eqn:Hx.
    + destruct st.
      * intros H. destruct (IH _ H) as [? | [? ?]]; [now left | right].
        split; [now right | assumption].
      * intros H. apply elem_of_cons in H as [-> | H]; [now left|].
        destruct (IH _ H) as [? | [? ?]]; [now left | right].
        split; [now right | assumption].
    + intros H. apply elem_of_cons in H as [-> | H].
      * right. split; [now left | assumption].
      * destruct (IH _ H) as [? | [? ?]]; [now left | right].
        split; [now right | assumption].
Qed.

Lemma collapse_ws_head (s : text) (c : ascii) :
  head (collapse_ws true s) = Some c -> is_space c = false.
Proof.
  induction s as [|x r IH]; cbn [collapse_ws]; [discriminate|].
  destruct (is_space x) eqn:Hx; [exact IH|]. cbn. now intros [= <-].
Qed.

Lemma collapse_ws_adjacent (st : bool) (s : text) (i : nat) (c d : ascii) :
  collapse_ws st s !! i = Some c -> collapse_ws st s !! S i = Some d ->
  is_space c = true -> is_space d = false.
Proof.
  revert st i. induction s as [|x r IH]; intros st i; cbn [collapse_ws]; [discriminate|].
  destruct (is_space x) eqn:Hx.
  - destruct st; [apply IH|].
    destruct i as [|i]; cbn.
    + intros _ H _. apply (collapse_ws_head r). now rewrite head_lookup.
    + apply IH.
  - destruct i as [|i]; cbn.
    + intros [= <-] _ H. congruence.
    + apply IH.
Qed.

(** What [lstrip] and [strip] cut off. *)
Lemma lstrip_spec (s : text) :
  (exists w, s = w ++ lstrip s)
  ∧ forall c, head (lstrip s) = Some c -> is_space c = false.
Proof.
  induction s as [|x r [[w IHw] IHh]]; cbn [lstrip].
  - split; [now exists [] | discriminate].
  - destruct (is_space x) eqn:Hx.
    + split; [|exact IHh]. exists (x :: w). cbn. now rewrite <- IHw.
    + split; [now exists []|]. cbn. now intros c [= <-].
Qed.

Lemma strip_spec (s : text) :
  (exists w1 w2, s = w1 ++ strip s ++ w2)
  ∧ (forall c, head (strip s) = Some c -> is_space c = false)
  ∧ (forall p c, strip s = p ++ [c] -> is_space c = false).
Proof.
  unfold strip.
  destruct (lstrip_spec s) as [[w1 Hw1] Hh1].
  destruct (lstrip_spec (rev (lstrip s))) as [[w2 Hw2] Hh2].
  set (u := lstrip s) in *. set (v := lstrip (rev u)) in *.
  assert (Hu : u = rev v ++ rev w2).
  { rewrite <- rev_app_distr, <- Hw2. now rewrite rev_involutive. }
  split; [|split].
  - exists w1, (rev w2). now rewrite <- Hu.
  - intros c Hc. apply Hh1. rewrite Hu. destruct (rev v); [discriminate | exact Hc].
  - intros p c Hp. apply Hh2.
    assert (Hv : v = rev (rev v)) by now rewrite rev_involutive.
    rewrite Hv, Hp, rev_app_distr. reflexivity.
Qed.

Lemma infix_lookup (w1 m w2 : text) (i : nat) (c : ascii) :
  m !! i = Some c -> (w1 ++ m ++ w2) !! (length w1 + i) = Some c.
Proof.
  intros H. rewrite lookup_app_r by lia.
  replace (length w1 + i - length w1) with i by lia.
  now apply lookup_app_l_Some.
Qed.

Lemma last_position (s : text) (i : nat) (c : ascii) :
  s !! i = Some c -> s !! S i = None -> s = take i s ++ [c].
Proof.
  intros Hi Hn. apply lookup_ge_None in Hn.
  rewrite <- (take_S_r s i c Hi). symmetry. now apply take_ge.
Qed.

Lemma lower_lookup (s : text) (i : nat) : lower s !! i = lower_char <$> s !! i.
Proof. unfold lower. apply list_lookup_fmap. Qed.

Lemma normalize_canonical (code : text) : canonical (normalize code).
Proof.
  unfold normalize.
  set (y := remove_semicolons _).
  assert (Hy : forall c, c ∈ y -> c <> ";").
  { intros c Hc. subst y. unfold remove_semicolons in Hc.
    apply list_elem_of_In, filter_In in Hc as [_ Hc].
    apply negb_true_iff in Hc. intros ->. discriminate. }
  set (z := collapse_ws false y).
  destruct (strip_spec z) as [(w1 & w2 & Hz) [Hhead Hlast]].
  set (u := strip z) in *.
  assert (Hu : forall c, c ∈ u -> c <> ";" ∧ (is_space c = true -> c = " ")).
  { intros c Hc.
    assert (Hcz : c ∈ z) by (rewrite Hz; set_solver).
    destruct (collapse_ws_chars _ _ _ Hcz) as [-> | [Hcy Hsp]].
    - split; [discriminate | reflexivity].
    - split; [now apply Hy | congruence]. }
  split.
  - apply Forall_forall. intros c Hc. unfold lower in Hc.
    apply list_elem_of_fmap in Hc as (x & -> & Hx).
    destruct (Hu x Hx) as [Hsemi Hsp].
    destruct (lower_char_space x) as (E1 & E2 & E3).
    split; [|split].
    + intros H. now apply Hsemi, E3.
    + apply lower_char_idem.
    + rewrite E1. intros H. now rewrite (Hsp H).
  - intros i. rewrite !lower_lookup.
    destruct (u !! i) as [x|] eqn:Hi; [|discriminate]. cbn. intros [= Hx].
    destruct (lower_char_space x) as (_ & E2 & _). specialize (E2 Hx). subst x.
    split.
    + destruct i as [|i]; [|lia]. exfalso.
      rewrite <- head_lookup in Hi. now specialize (Hhead _ Hi).
    + destruct (u !! S i) as [d|] eqn:Hd.
      * exists (lower_char d). split; [reflexivity|].
        assert (Hsp : is_space d = false).
        { apply (collapse_ws_adjacent false y (length w1 + i) " " d);
            [| |reflexivity]; fold z; rewrite Hz.
          - now apply infix_lookup.
          - replace (S (length w1 + i)) with (length w1 + S i) by lia.
            now apply infix_lookup. }
        intros H. destruct (lower_char_space d) as (_ & E2' & _).
        rewrite (E2' H) in Hsp. discriminate.
      * exfalso. pose proof (last_position u i " " Hi Hd) as Hp.
        now specialize (Hlast _ _ Hp).
Qed.

(** The steps of the normalizer on a text in normal form. *)
Lemma strip_line_comments_none (a : ascii) (m s : text) :
  Forall (fun c => c <> a) s -> strip_line_comments (a :: m) false s = s.
Proof.
  induction 1 as [|c r Hc _ IH]; [reflexivity|].
  cbn [strip_line_comments starts_with].
  destruct (is_nl c); [now rewrite IH|].
  assert (E : Ascii.eqb a c = false) by (apply Ascii.eqb_neq; congruence).
  rewrite E. cbn. now rewrite IH.
Qed.

Lemma strip_block_comments_none (s : text) :
  Forall (fun c => c <> "/") s -> strip_block_comments false s = s.
Proof.
  induction 1 as [|c r Hc _ IH]; [reflexivity|].
  destruct r as [|d r']; [reflexivity|].
  change (strip_block_comments false (c :: d :: r'))
    with (if Ascii.eqb c "/" && Ascii.eqb d "*" && has_close r'
          then strip_block_comments true r'
          else c :: strip_block_comments false (d :: r')).
  assert (E : Ascii.eqb c "/" = false) by now apply Ascii.eqb_neq.
  rewrite E. cbn [andb]. now rewrite IH.
Qed.

Lemma remove_semicolons_none (s : text) :
  Forall (fun c => c <> ";") s -> remove_semicolons s = s.
Proof.
  induction 1 as [|c r Hc _ IH]; [reflexivity|].
  unfold remove_semicolons in *. cbn [List.filter].
  assert (E : Ascii.eqb c ";" = false) by now apply Ascii.eqb_neq.
  rewrite E. cbn. now rewrite IH.
Qed.

Lemma collapse_ws_single (s : text) (st : bool) :
  Forall (fun c => is_space c = true -> c = " ") s ->
  (forall i, s !! i = Some " " -> s !! S i <> Some " ") ->
  (st = true -> s !! 0 <> Some " ") ->
  collapse_ws st s = s.
Proof.
  intros H. revert st. induction H as [|c r Hc _ IH]; intros st Hadj Hst; [reflexivity|].
  cbn [collapse_ws]. destruct (is_space c) eqn:Hsp.
  - specialize (Hc eq_refl). subst c.
    destruct st; [exfalso; now apply Hst|].
    f_equal. apply IH.
    + intros i. apply (Hadj (S i)).
    + intros _. now apply (Hadj 0).
  - f_equal. apply IH; [|discriminate]. intros i. apply (Hadj (S i)).
Qed.

Lemma lstrip_none (s : text) :
  (forall c, head s = Some c -> is_space c = false) -> lstrip s = s.
Proof.
  destruct s as [|c r]; [reflexivity|]. intros H. cbn [lstrip].
  now rewrite (H c eq_refl).
Qed.

Lemma strip_none (s : text) :
  (forall c, head s = Some c -> is_space c = false) ->
  (forall p c, s = p ++ [c] -> is_space c = false) ->
  strip s = s.
Proof.
  intros Hh Hl. unfold strip. rewrite (lstrip_none s Hh).
  rewrite lstrip_none; [apply rev_involutive|].
  intros c Hc. apply (Hl (rev (tail (rev s))) c).
  destruct (rev s) as [|x r] eqn:E; [discriminate|]. cbn in Hc. injection Hc as ->.
  cbn [tail]. rewrite <- (rev_involutive s), E. reflexivity.
Qed.

Lemma lower_none (s : text) : Forall (fun c => lower_char c = c) s -> lower s = s.
Proof.
  induction 1 as [|c r Hc _ IH]; [reflexivity|]. unfold lower in *. cbn. now rewrite Hc, IH.
Qed.

Lemma normalize_fixed (s : text) :
  canonical s -> Forall (fun c => c <> "/" ∧ c <> "#") s -> normalize s = s.
Proof.
  intros [Hall Hsp] Hm. unfold normalize.
  rewrite (strip_line_comments_none "/" ["/"] s)
    by (eapply Forall_impl; [exact Hm | now intros c [? ?]]).
  rewrite (strip_line_comments_none "#" [] s)
    by (eapply Forall_impl; [exact Hm | now intros c [? ?]]).
  rewrite (strip_block_comments_none s)
    by (eapply Forall_impl; [exact Hm | now intros c [? ?]]).
  rewrite (remove_semicolons_none s)
    by (eapply Forall_impl; [exact Hall | now intros c (? & ? & ?)]).
  assert (Hspace : forall c, is_space c = true -> c ∈ s -> c = " ").
  { intros c Hc Hin. rewrite Forall_forall in Hall. now apply (Hall c Hin). }
  rewrite (collapse_ws_single s false).
  2:{ eapply Forall_impl; [exact Hall | now intros c (? & ? & ?)]. }
  2:{ intros i Hi Hn. destruct (Hsp i Hi) as [_ (c & Hc & Hne)]. congruence. }
  2:{ discriminate. }
  rewrite strip_none.
  - apply lower_none. eapply Forall_impl; [exact Hall | now intros c (? & ? & ?)].
  - intros c Hc. destruct (is_space c) eqn:E; [|reflexivity]. exfalso.
    rewrite head_lookup in Hc.
    assert (c = " ") by (apply Hspace; [assumption | now apply list_elem_of_lookup_2 in Hc]).
    subst c. destruct (Hsp 0 Hc) as [? _]. lia.
  - intros p c -> . destruct (is_space c) eqn:E; [|reflexivity]. exfalso.
    assert (c = " ") by (apply Hspace; [assumption | set_solver]).
    subst c.
    assert (Hi : (p ++ [" "]) !! length p = Some " ").
    { rewrite lookup_app_r by lia. now rewrite Nat.sub_diag. }
    destruct (Hsp _ Hi) as [_ (d & Hd & _)].
    apply lookup_lt_Some in Hd. rewrite length_app in Hd. cbn in Hd. lia.
Qed.

End NormalForm.

(** X18. The shape of a normalized text.  Whatever the input,
    [normalize_code] returns a text without semicolon and without upper-case
    letter, whose only whitespace character is the space, with no space at
    its beginning or at its end and no two spaces in a row. *)
Theorem normalize_code_canonical (code : string) :
  canonical (list_ascii_of_string (normalize_code code)).
Proof.
  unfold normalize_code. rewrite list_ascii_of_string_of_list_ascii.
  apply NormalForm.normalize_canonical.
Qed.

(** X19. Normalized texts are stable, comment markers apart.  A normalized
    text that holds no slash and no hash is its own normal form; one that
    holds a marker need not be, since a marker can be put together by the
    removal of a semicolon. *)
Theorem normalize_code_stable (code : string) :
  Forall (fun c => c <> "/"%char ∧ c <> "#"%char)
         (list_ascii_of_string (normalize_code code)) ->
  normalize_code (normalize_code code) = normalize_code code.
Proof.
  unfold normalize_code. rewrite list_ascii_of_string_of_list_ascii. intros H.
  f_equal. apply NormalForm.normalize_fixed; [apply NormalForm.normalize_canonical | exact H].
Qed.

Lemma normalize_code_stable_witness :
  normalize_code (normalize_code "Return  TRUE;") = normalize_code "Return  TRUE;"
  ∧ normalize_code "/;/ x" = "// x"
  ∧ normalize_code (normalize_code "/;/ x") = "".
Proof.
  split; [|split; reflexivity].
  apply (normalize_code_stable "Return  TRUE;").
  repeat constructor; discriminate.
Defined.

(** ** Statistics after a store *)

Lemma by_call_type_types (alive : table) :
  ts_call_type <$> order_by_hits (group_stats alive <$> call_types alive)
  ≡ₚ call_types alive.
Proof.
  rewrite order_by_hits_perm, <- list_fmap_compose.
  erewrite list_fmap_ext; [now rewrite list_fmap_id|]. reflexivity.
Qed.

(** X20. The statistics after a store.  A store whose instant of expiry
    is one that a [datetime] holds replaces the row of its key: the table
    then has one row more than it had rows of other keys, the hits counted
    for the replaced row are gone from the total and the new row starts at
    zero; and statistics read before the expiry of the new row show at least
    one active entry and list its call type. *)
Theorem stats_after_store (ttl now_expiry now_created now_active now_by_type : Z)
    (ct h : string) (v : json) (t : table) :
  representable (now_expiry + ttl * 3600000000) = true ->
  let others := List.filter (fun r => negb (has_key ct h r)) t in
  let t1 := set_cached_response ttl now_expiry now_created ct h v t in
  let s := get_cache_stats ttl now_active now_by_type t1 in
  total_entries s = length others + 1
  ∧ total_cache_hits s + sum_hits (List.filter (has_key ct h) t) = sum_hits t
  ∧ hits_of ct h t1 = Some 0
  ∧ ((now_active < now_expiry + ttl * 3600000000)%Z -> 1 <= active_entries s)
  ∧ ((now_by_type < now_expiry + ttl * 3600000000)%Z ->
     ct ∈ ts_call_type <$> by_call_type s).
Proof.
  intros Hrep others t1 s. subst s t1.
  rewrite set_cached_response_stores by exact Hrep. unfold get_cache_stats.
  cbn [total_entries total_cache_hits active_entries by_call_type]. fold others.
  split; [|split; [|split; [|split]]].
  - rewrite length_app. reflexivity.
  - rewrite sum_hits_app. unfold sum_hits at 2. cbn [fmap list_fmap hit_count list_sum foldr].
    rewrite (sum_hits_split (has_key ct h) t). subst others. cbn. lia.
  - subst others. apply hits_of_stored.
  - intros Hlive. rewrite List.filter_app, length_app. cbn [List.filter].
    unfold live at 2. cbn [expires_at].
    apply Z.ltb_lt in Hlive. rewrite Hlive. cbn. lia.
  - intros Hlive. rewrite by_call_type_types. apply call_types_elem.
    exists (mkRow (fresh_id t) ct h v now_created (now_expiry + ttl * 3600000000) 0).
    split; [|reflexivity].
    apply list_elem_of_In, List.filter_In. split.
    + apply List.in_or_app. right. now left.
    + unfold live. cbn [expires_at]. now apply Z.ltb_lt.
Qed.

Lemma stats_after_store_witness :
  total_entries (get_cache_stats 24 5 5
                   (set_cached_response 24 0 0 "t" "k" (JInt 7)
                      [mkRow 1 "t" "k" JNull 0 9 4])) = 1
  ∧ hits_of "t" "k" (set_cached_response 24 0 0 "t" "k" (JInt 7)
                       [mkRow 1 "t" "k" JNull 0 9 4]) = Some 0.
Proof.
  destruct (stats_after_store 24 0 0 5 5 "t" "k" (JInt 7)
              [mkRow 1 "t" "k" JNull 0 9 4] eq_refl) as (H1 & _ & H3 & _).
  split; [exact H1 | exact H3].
Defined.

(** ** A store that cannot compute its expiry *)

Lemma ttl_out_of_range (ttl now : Z) :
  representable now = true -> (87649416 <= ttl ∨ ttl <= -87649416)%Z ->
  representable (now + ttl * 3600000000) = false.
Proof.
  unfold representable, datetime_max. intros H Httl.
  apply andb_true_iff in H as [H0 H1]. apply Z.leb_le in H0, H1.
  apply andb_false_iff. destruct Httl; [right | left]; apply Z.leb_gt; lia.
Qed.

(** X22. With a TTL of 87649416 hours or more (the span of the instants
    that a [datetime] holds), or of minus that or less, no store writes: the
    sum of the reading of the clock and the TTL overflows, the handler of
    [set_cached_response] swallows the error and the table stays as it was,
    so that a row of the key that was live stays and is served.  An analyzer
    that missed then returns the collaborator's answer and leaves the table
    unchanged: the next call asks again. *)
Theorem ttl_out_of_range_stores_nothing
    (sha256_hex : string -> string) (ttl : Z) (parse : string -> result json)
    (generate_content : string -> option string) (A_PROMPT : string)
    (now_get now_expiry now_created : Z) (t : table) :
  representable now_expiry = true ->
  (87649416 <= ttl ∨ ttl <= -87649416)%Z ->
  (forall ct h v, set_cached_response ttl now_expiry now_created ct h v t = t)
  ∧ (forall problem_statement text res,
        fst (get_cached_response now_get "analyze_problem"
               (generate_cache_key sha256_hex "analyze_problem" [problem_statement]) t)
        = None ->
        generate_content (A_PROMPT ++ nl ++ nl ++ "Problem Statement:" ++ nl
                          ++ problem_statement) = Some text ->
        parse text = Ok res ->
        analyze_problem sha256_hex ttl parse generate_content A_PROMPT
          now_get now_expiry now_created problem_statement t = (Ok res, t)).
Proof.
  intros Hnow Httl.
  assert (Hset : forall ct h v, set_cached_response ttl now_expiry now_created ct h v t = t).
  { intros. apply set_cached_response_fails. now apply ttl_out_of_range. }
  split; [exact Hset|].
  intros ps text res Hmiss Hg Hp. unfold analyze_problem. cbv zeta.
  rewrite (get_miss _ _ _ _ Hmiss). cbn [is_none].
  rewrite (ask_and_store_unfold ttl parse generate_content _ _ _ _ _ text res t Hg Hp).
  now rewrite Hset.
Qed.

Lemma ttl_out_of_range_stores_nothing_witness :
  set_cached_response 100000000 1000 1000 "t" "k" (JInt 7)
    [mkRow 1 "t" "k" (JInt 3) 0 9000 4]
  = [mkRow 1 "t" "k" (JInt 3) 0 9000 4]
  ∧ fst (get_cached_response 2000 "t" "k"
           (set_cached_response 100000000 1000 1000 "t" "k" (JInt 7)
              [mkRow 1 "t" "k" (JInt 3) 0 9000 4])) = Some (JInt 3).
Proof.
  destruct (ttl_out_of_range_stores_nothing (fun s => s) 100000000
              (fun _ => Ok JNull) (fun _ => None) "A" 0 1000 1000
              [mkRow 1 "t" "k" (JInt 3) 0 9000 4]) as [H _];
    [reflexivity | left; lia |].
  specialize (H "t" "k" (JInt 7)). split; [exact H | now rewrite H].
Defined.

(** ** Fields that the entity does not have *)

Lemma make_node_raises_type_error (v : json) (e : exn) :
  make_node v = Raise e -> e = TypeError.
Proof.
  unfold make_node. destruct v as [| | | | |m]; try congruence.
  destruct (bool_decide _); [|congruence].
  destruct (m !! "id"), (m !! "type"), (m !! "label"), (m !! "next_nodes"); congruence.
Qed.

Lemma make_node_unknown_field (a : gmap string json) (k : string) :
  is_Some (a !! k) -> k ∉ node_fields -> make_node (JObj a) = Raise TypeError.
Proof.
  intros Hk Hn. unfold make_node.
  rewrite bool_decide_eq_false_2; [reflexivity|].
  intros Hsub. apply Hn, Hsub. now apply elem_of_dom.
Qed.

Lemma make_nodes_unknown_field (l : list json) :
  Exists (fun n => exists a k, n = JObj a ∧ is_Some (a !! k) ∧ k ∉ node_fields) l ->
  make_nodes l = Raise TypeError.
Proof.
  induction 1 as [n l (a & k & -> & Hk & Hn) | n l _ IH]; cbn [make_nodes].
  - now rewrite (make_node_unknown_field a k Hk Hn).
  - destruct (make_node n) as [x|e] eqn:E.
    + now rewrite bind_ok, IH.
    + apply make_node_raises_type_error in E. now subst.
Qed.

Lemma imap_unknown_field (f : nat -> json -> json) (l : list json) :
  (forall i a, exists b, f i (JObj a) = JObj b ∧ a ⊆ b) ->
  Exists (fun n => exists a k, n = JObj a ∧ is_Some (a !! k) ∧ k ∉ node_fields) l ->
  Exists (fun n => exists a k, n = JObj a ∧ is_Some (a !! k) ∧ k ∉ node_fields) (imap f l).
Proof.
  intros Hf H. revert f Hf.
  induction H as [n l (a & k & -> & [x Hk] & Hn) | n l _ IH]; intros f Hf; cbn [imap].
  - left. destruct (Hf 0 a) as (b & -> & Hab). exists b, k. repeat split; [|exact Hn].
    exists x. now apply (lookup_weaken a b).
  - right. apply IH. intros i a. apply Hf.
Qed.

(** X21. A field that [CFGNode] does not have is fatal.  Validation keeps
    the fields it does not know, and the constructor refuses them: when the
    collaborator's answer decodes to a dict one of whose nodes carries a
    field other than the five of the entity, [pseudocode_to_cfg] raises
    [TypeError] and stores nothing, although every dict of the answer could
    be completed. *)
Theorem unknown_node_field_is_fatal
    (sha256_hex : string -> string) (ttl : Z) (parse : string -> result json)
    (generate_content : string -> option string) (P_PROMPT : string)
    (now_get now_expiry now_created : Z) (pseudocode text : string) (t : table)
    (m : gmap string json) (ns : list json) :
  fst (get_cached_response now_get "pseudocode_to_cfg"
         (generate_cache_key sha256_hex "pseudocode_to_cfg" [normalize_code pseudocode]) t)
  = None ->
  generate_content (P_PROMPT ++ nl ++ nl ++ "Pseudocode:" ++ nl ++ pseudocode) = Some text ->
  parse text = Ok (JObj m) ->
  m !! "nodes" = Some (JArr ns) ->
  forallb is_obj ns = true ->
  optional (is_list_of is_obj) m "edges" = true ->
  Exists (fun n => exists a k, n = JObj a ∧ is_Some (a !! k) ∧ k ∉ node_fields) ns ->
  is_ok (validate_cfg (JObj m)) = true
  ∧ pseudocode_to_cfg sha256_hex ttl parse generate_content P_PROMPT
      now_get now_expiry now_created pseudocode t = (Raise TypeError, t).
Proof.
  intros Hmiss Hg Hp Hns Hobj He Hex.
  assert (Hn : optional (is_list_of is_obj) m "nodes" = true).
  { unfold optional. now rewrite Hns. }
  destruct (validate_cfg_validated m Hn He) as [Hv _].
  split; [now rewrite Hv|].
  unfold pseudocode_to_cfg. cbv zeta. rewrite (get_miss _ _ _ _ Hmiss), Hg.
  unfold from_response. rewrite Hp, Hv.
  destruct (optional_objs m Hn He) as (ns' & es & Ln & _ & Rn & Le & _ & _).
  assert (ns' = ns) as ->.
  { unfold record_list in Rn. rewrite Hns in Rn. congruence. }
  rewrite (validated_unfold m ns es Ln Le).
  unfold to_entity.
  rewrite (py_getitem_obj "nodes" _ (JArr (imap complete_node ns)))
    by (rewrite lookup_insert_ne by discriminate; apply lookup_insert_eq).
  rewrite bind_ok. cbn [py_iter]. rewrite bind_ok.
  rewrite make_nodes_unknown_field; [reflexivity|].
  apply imap_unknown_field; [apply complete_node_subseteq | exact Hex].
Qed.

Lemma unknown_node_field_is_fatal_witness :
  pseudocode_to_cfg (fun s => s) 24
    (fun _ => Ok (JObj {[ "nodes" := JArr [JObj {[ "id" := JStr "n1";
                                                    "description" := JStr "entry" ]}] ]}))
    (fun _ => Some "x") "P" 0 0 0 "start" []
  = (Raise TypeError, []).
Proof.
  apply (unknown_node_field_is_fatal (fun s => s) 24
           (fun _ => Ok (JObj {[ "nodes" := JArr [JObj {[ "id" := JStr "n1";
                                                           "description" := JStr "entry" ]}] ]}))
           (fun _ => Some "x") "P" 0 0 0 "start" "x" []
           ({[ "nodes" := JArr [JObj {[ "id" := JStr "n1";
                                        "description" := JStr "entry" ]}] ]} : gmap string json)
           [JObj {[ "id" := JStr "n1"; "description" := JStr "entry" ]}]);
    try reflexivity.
  left. exists ({[ "id" := JStr "n1"; "description" := JStr "entry" ]} : gmap string json),
          "description".
  split; [reflexivity|]. split; [now eexists|]. vm_compute. intros H. discriminate.
Defined.
